(** * PrivateCrowdfund: the encrypted contribution ledger and its lifecycle

    A shallow embedding of [contracts/PrivateCrowdfund.sol].  Contract
    storage is a record, a transaction is a computation in a small
    state-and-revert monad, and the EVM's all-or-nothing rule is the
    function [exec] that throws away the world of an aborted call.  The
    monad keeps the world reached at the point of the abort, so that
    what a call had done before it failed can be stated as well. *)

From Stdlib Require Import ZArith Lia.
From Stdlib Require Init.Byte.
From stdpp Require Import gmap strings list.

Local Open Scope Z_scope.

(** ** Machine integers *)

Abbreviation address := Z.

Definition is_uint64 (z : Z) : Prop := 0 <= z < 2 ^ 64.

(** [unchecked] arithmetic and explicit [uint64(...)] conversions. *)
Definition wrap64 (z : Z) : Z := z mod 2 ^ 64.

(** The literal [1 days]. *)
Definition one_day : Z := 86400.

(** ** The FHE library, as the contract uses it *)

Module FHE.

(** Modelled from the spec: the library [@fhevm/solidity/lib/FHE.sol]
    is an external dependency and is not part of the sources.  Section 3
    of the specification describes an encrypted amount as an opaque
    handle for a 64-bit quantity with homomorphic addition and
    greater-or-equal comparison, each producing a new handle, and
    section 9 asks for the capability to be injected with [add],
    [compareGE], [encode] and a permission-guarded decryption.  A handle
    is modelled by the term that produced it, so two handles are equal
    exactly when they were computed the same way (the library derives a
    result handle from the operation and the handles of its operands);
    [uninit64] is the zero handle of a storage slot never written, and
    [ext64 id] the handle [FHE.fromExternal] returns for the external
    handle [id]. *)
Inductive euint64 : Type :=
| uninit64
| ext64 (id : Z)
| enc64 (v : Z)
| add64 (a b : euint64).

Inductive ebool : Type :=
| uninitb
| encb (b : bool)
| ge64 (a b : euint64).

(** The access-control list is keyed by handles of either type. *)
Inductive handle : Type :=
| h64 (e : euint64)
| hb (b : ebool).

#[global] Instance euint64_eq_dec : EqDecision euint64.
Proof. solve_decision. Defined.
#[global] Instance ebool_eq_dec : EqDecision ebool.
Proof. solve_decision. Defined.
#[global] Instance handle_eq_dec : EqDecision handle.
Proof. solve_decision. Defined.

Definition asEuint64 (v : Z) : euint64 := enc64 v.
Definition asEbool (b : bool) : ebool := encb b.

(** An operand that was never initialised counts as an encryption of 0. *)
Definition operand (a : euint64) : euint64 :=
  match a with uninit64 => asEuint64 0 | _ => a end.

Definition add (a b : euint64) : euint64 := add64 (operand a) (operand b).
Definition ge (a b : euint64) : ebool := ge64 (operand a) (operand b).

(** Modelled from the spec: the access-control list behind [FHE.allow]
    (section 3, PermissionGrant: grants are additive and there is no
    revocation), as the grants made so far, newest first.  The list's own
    requirement that the granting contract already holds the handle is
    left out; it can only make a call abort. *)
Definition ACL : Type := list (handle * address).

Definition allow (h : handle) (who : address) (l : ACL) : ACL := (h, who) :: l.

Definition isAllowed (h : handle) (who : address) (l : ACL) : bool :=
  bool_decide ((h, who) ∈ l).

(** Modelled from the spec: what the decryption oracle returns for a
    handle (section 6), given the plaintexts [pt] the clients encrypted
    under the external handles.  An encrypted amount is a 64-bit
    quantity (section 3), so whatever is decrypted lies below 2^64; the
    library's addition is unchecked and wraps around. *)
Fixpoint decrypt (pt : Z -> Z) (e : euint64) : Z :=
  match e with
  | uninit64 => 0
  | ext64 id => wrap64 (pt id)
  | enc64 v => wrap64 v
  | add64 a b => wrap64 (decrypt pt a + decrypt pt b)
  end.

Definition decryptb (pt : Z -> Z) (b : ebool) : bool :=
  match b with
  | uninitb => false
  | encb v => v
  | ge64 x y => decrypt pt y <=? decrypt pt x
  end.

End FHE.

Import FHE (euint64, ebool, handle, h64, hb).

(** ** Errors and events *)

Inductive Error : Type :=
| NotOwner
| CampaignExpired
| CampaignAlreadyFinalized
| InvalidGoal
| InvalidDeadline
| InvalidContributionLimits
| NoContributions
| RequireFailed (reason : string)
| Panic
| ExternalFailure.

Inductive Event : Type :=
| Contributed (contributor : address) (isFirstTime : bool) (timestamp : Z)
| CampaignEnded (goalMet : bool) (timestamp : Z)
| GoalUpdated (oldGoal newGoal : Z)
| DeadlineExtended (oldDeadline newDeadline : Z).

#[global] Instance Error_eq_dec : EqDecision Error.
Proof. solve_decision. Defined.
#[global] Instance Event_eq_dec : EqDecision Event.
Proof. solve_decision. Defined.

(** ** Contract storage *)

Record Storage : Type := mkStorage {
  owner : address;
  usdc : address;
  treasury : address;
  fundingGoal : Z;
  minContribution : Z;
  maxContribution : Z;
  deadline : Z;
  totalRaisedEnc : euint64;
  lastGoalReachedCache : ebool;
  hasContributedMap : gmap Z bool;
  contributionAmounts : gmap Z euint64;
  contributorCount : Z;
  totalInitialized : bool;
  campaignFinalized : bool
}.

(** Reading a Solidity mapping: an absent key holds the zero value. *)
Definition hasContributed (s : Storage) (user : address) : bool :=
  default false (hasContributedMap s !! user).

Definition contributionOf (s : Storage) (user : address) : euint64 :=
  default FHE.uninit64 (contributionAmounts s !! user).

Definition set_fundingGoal (v : Z) (s : Storage) : Storage :=
  mkStorage (owner s) (usdc s) (treasury s) v (minContribution s)
    (maxContribution s) (deadline s) (totalRaisedEnc s)
    (lastGoalReachedCache s) (hasContributedMap s) (contributionAmounts s)
    (contributorCount s) (totalInitialized s) (campaignFinalized s).

Definition set_deadline (v : Z) (s : Storage) : Storage :=
  mkStorage (owner s) (usdc s) (treasury s) (fundingGoal s) (minContribution s)
    (maxContribution s) v (totalRaisedEnc s)
    (lastGoalReachedCache s) (hasContributedMap s) (contributionAmounts s)
    (contributorCount s) (totalInitialized s) (campaignFinalized s).

Definition set_totalRaisedEnc (v : euint64) (s : Storage) : Storage :=
  mkStorage (owner s) (usdc s) (treasury s) (fundingGoal s) (minContribution s)
    (maxContribution s) (deadline s) v
    (lastGoalReachedCache s) (hasContributedMap s) (contributionAmounts s)
    (contributorCount s) (totalInitialized s) (campaignFinalized s).

Definition set_lastGoalReachedCache (v : ebool) (s : Storage) : Storage :=
  mkStorage (owner s) (usdc s) (treasury s) (fundingGoal s) (minContribution s)
    (maxContribution s) (deadline s) (totalRaisedEnc s)
    v (hasContributedMap s) (contributionAmounts s)
    (contributorCount s) (totalInitialized s) (campaignFinalized s).

Definition set_hasContributedMap (user : address) (v : bool) (s : Storage) : Storage :=
  mkStorage (owner s) (usdc s) (treasury s) (fundingGoal s) (minContribution s)
    (maxContribution s) (deadline s) (totalRaisedEnc s)
    (lastGoalReachedCache s) (<[user := v]> (hasContributedMap s))
    (contributionAmounts s)
    (contributorCount s) (totalInitialized s) (campaignFinalized s).

Definition set_contributionAmounts (user : address) (v : euint64) (s : Storage) : Storage :=
  mkStorage (owner s) (usdc s) (treasury s) (fundingGoal s) (minContribution s)
    (maxContribution s) (deadline s) (totalRaisedEnc s)
    (lastGoalReachedCache s) (hasContributedMap s)
    (<[user := v]> (contributionAmounts s))
    (contributorCount s) (totalInitialized s) (campaignFinalized s).

Definition set_contributorCount (v : Z) (s : Storage) : Storage :=
  mkStorage (owner s) (usdc s) (treasury s) (fundingGoal s) (minContribution s)
    (maxContribution s) (deadline s) (totalRaisedEnc s)
    (lastGoalReachedCache s) (hasContributedMap s) (contributionAmounts s)
    v (totalInitialized s) (campaignFinalized s).

Definition set_totalInitialized (v : bool) (s : Storage) : Storage :=
  mkStorage (owner s) (usdc s) (treasury s) (fundingGoal s) (minContribution s)
    (maxContribution s) (deadline s) (totalRaisedEnc s)
    (lastGoalReachedCache s) (hasContributedMap s) (contributionAmounts s)
    (contributorCount s) v (campaignFinalized s).

Definition set_campaignFinalized (v : bool) (s : Storage) : Storage :=
  mkStorage (owner s) (usdc s) (treasury s) (fundingGoal s) (minContribution s)
    (maxContribution s) (deadline s) (totalRaisedEnc s)
    (lastGoalReachedCache s) (hasContributedMap s) (contributionAmounts s)
    (contributorCount s) (totalInitialized s) v.

(** ** The collaborators *)

(** The [IERC20] interface.  Only [transferFrom] is called by the
    contract.  The first address is the caller of the token (the
    crowdfund contract); [None] is a call that reverts, [Some (b, t)] a
    call that returns [b] and leaves the token in state [t].  The token
    does not call back into the crowdfund contract. *)
Class IERC20 (T : Type) : Type := {
  transferFrom : address -> address -> address -> Z -> T -> option (bool * T)
}.

(** Modelled from the spec: what the chain and the configuration
    [@fhevm/solidity/config/ZamaConfig.sol] provide, neither of which is
    part of the sources: the address the contract is deployed at, the
    oracle address of [ZamaConfig.getSepoliaOracleAddress()] and the
    trusted verifier behind [FHE.fromExternal] (section 6), which is
    given the contract, the user, the external handle and the proof. *)
Record Env : Type := mkEnv {
  self : address;
  oracleAddress : address;
  verifyInput : address -> address -> Z -> list Byte.byte -> bool
}.

(** A token for running the contract on concrete inputs: balances and
    allowances, and a [transferFrom] that reports failure by returning
    [false] when the payer lacks the funds or the allowance. *)
Module SimpleToken.

Record Ledger : Type := mkLedger {
  balances : gmap Z Z;
  allowances : gmap (Z * Z) Z
}.

Definition balanceOf (l : Ledger) (a : address) : Z :=
  default 0 (balances l !! a).

Definition allowance (l : Ledger) (holder spender : address) : Z :=
  default 0 (allowances l !! (holder, spender)).

Definition move (spender from to : address) (amount : Z) (l : Ledger) : Ledger :=
  let b1 := <[from := balanceOf l from - amount]> (balances l) in
  let b2 := <[to := default 0 (b1 !! to) + amount]> b1 in
  mkLedger b2 (<[(from, spender) := allowance l from spender - amount]> (allowances l)).

#[global] Instance Ledger_IERC20 : IERC20 Ledger := {
  transferFrom spender from to amount l :=
    if (amount <=? balanceOf l from) && (amount <=? allowance l from spender)
    then Some (true, move spender from to amount l)
    else Some (false, l)
}.

(** Every listed holder has the given balance and has approved the
    spender for all of it. *)
Definition funded (spender : address) (holders : list address) (amount : Z) : Ledger :=
  mkLedger (list_to_map (map (fun h => (h, amount)) holders))
           (list_to_map (map (fun h => ((h, spender), amount)) holders)).

End SimpleToken.

(** The same balances and allowances behind a token that reverts when
    the payer lacks the funds or the allowance, as USDC does. *)
Module StrictToken.

Record Vault : Type := mkVault { ledger : SimpleToken.Ledger }.

#[global] Instance Vault_IERC20 : IERC20 Vault := {
  transferFrom spender from to amount v :=
    if (amount <=? SimpleToken.balanceOf (ledger v) from)
       && (amount <=? SimpleToken.allowance (ledger v) from spender)
    then Some (true, mkVault (SimpleToken.move spender from to amount (ledger v)))
    else None
}.

End StrictToken.

(** A token without state whose [transferFrom] always succeeds: every
    payer is taken to hold the funds and the allowance. *)
Module OpenToken.

#[global] Instance unit_IERC20 : IERC20 unit := {
  transferFrom _ _ _ _ t := Some (true, t)
}.

End OpenToken.

Section Contract.

Context {T : Type} `{Token : IERC20 T}.
Variable env : Env.

(** ** The world a transaction runs in *)

(** [transfers] is a ghost log of the [transferFrom] calls the
    contract has made, so that "no transfer was attempted" can be said
    of a token whose state is abstract. *)
Record World : Type := mkWorld {
  storage : Storage;
  acl : FHE.ACL;
  token : T;
  transfers : list (address * address * Z);
  events : list Event;
  block_timestamp : Z
}.

Definition with_storage (f : Storage -> Storage) (w : World) : World :=
  mkWorld (f (storage w)) (acl w) (token w) (transfers w) (events w)
    (block_timestamp w).

Definition with_acl (f : FHE.ACL -> FHE.ACL) (w : World) : World :=
  mkWorld (storage w) (f (acl w)) (token w) (transfers w) (events w)
    (block_timestamp w).

Definition with_token (t : T) (w : World) : World :=
  mkWorld (storage w) (acl w) t (transfers w) (events w) (block_timestamp w).

Definition with_transfer (c : address * address * Z) (w : World) : World :=
  mkWorld (storage w) (acl w) (token w) (transfers w ++ [c]) (events w)
    (block_timestamp w).

Definition with_event (e : Event) (w : World) : World :=
  mkWorld (storage w) (acl w) (token w) (transfers w) (events w ++ [e])
    (block_timestamp w).

Definition with_timestamp (t : Z) (w : World) : World :=
  mkWorld (storage w) (acl w) (token w) (transfers w) (events w) t.

(** ** The transaction monad *)

Inductive Outcome (A : Type) : Type :=
| Done (a : A) (w : World)
| Abort (e : Error) (w : World).
Arguments Done {A} a w.
Arguments Abort {A} e w.

Definition M (A : Type) : Type := World -> Outcome A.

Definition ret {A} (a : A) : M A := fun w => Done a w.

Definition bind {A B} (c : M A) (k : A -> M B) : M B :=
  fun w => match c w with
           | Done a w' => k a w'
           | Abort e w' => Abort e w'
           end.

Definition revert {A} (e : Error) : M A := fun w => Abort e w.

Definition sload {A} (field : Storage -> A) : M A := fun w => Done (field (storage w)) w.

Definition sstore (f : Storage -> Storage) : M unit := fun w => Done tt (with_storage f w).

Definition timestamp : M Z := fun w => Done (block_timestamp w) w.

Definition emit (e : Event) : M unit := fun w => Done tt (with_event e w).

Definition require (b : bool) (reason : string) : M unit :=
  if b then ret tt else revert (RequireFailed reason).

Definition revert_if (b : bool) (e : Error) : M unit :=
  if b then revert e else ret tt.

Definition FHE_allow (h : handle) (who : address) : M unit :=
  fun w => Done tt (with_acl (FHE.allow h who) w).

(** [FHE.fromExternal]: the verifier checks the proof for this
    contract and this sender; a bad proof aborts the transaction. *)
Definition FHE_fromExternal (sender : address) (encHandle : Z) (inputProof : list Byte.byte)
  : M euint64 :=
  if verifyInput env (self env) sender encHandle inputProof
  then ret (FHE.ext64 encHandle)
  else revert ExternalFailure.

(** The external call [usdc.transferFrom(from, to, amount)]. *)
Definition usdc_transferFrom (from to : address) (amount : Z) : M bool :=
  fun w =>
    let w1 := with_transfer (from, to, amount) w in
    match transferFrom (self env) from to amount (token w) with
    | Some (b, t) => Done b (with_token t w1)
    | None => Abort ExternalFailure w1
    end.

(** Checked [uint64] arithmetic (Solidity 0.8): overflow panics. *)
Definition checked_mul64 (a b : Z) : M Z :=
  if a * b <? 2 ^ 64 then ret (a * b) else revert Panic.

Definition checked_add64 (a b : Z) : M Z :=
  if a + b <? 2 ^ 64 then ret (a + b) else revert Panic.

Notation "'let*' x ':=' c 'in' k" := (bind c (fun x => k))
  (at level 10, x name, c at level 100, k at level 200).
Notation "c '>>' k" := (bind c (fun _ => k))
  (at level 100, k at level 200, right associativity).

(** ** Modifiers *)

Definition onlyOwner (sender : address) : M unit :=
  let* o := sload owner in
  revert_if (negb (bool_decide (sender = o))) NotOwner.

Definition campaignActive : M unit :=
  let* now := timestamp in
  let* d := sload deadline in
  revert_if (d <=? now) CampaignExpired >>
  let* f := sload campaignFinalized in
  revert_if f CampaignAlreadyFinalized.

Definition hasTotalInitialized : M unit :=
  let* i := sload totalInitialized in
  revert_if (negb i) NoContributions.

(** ** Internal functions *)

Definition _updateGoalStatus (sender : address) : M ebool :=
  let* i := sload totalInitialized in
  (if negb i
   then sstore (set_lastGoalReachedCache (FHE.asEbool false))
   else
     let* goal := sload fundingGoal in
     let goalEnc := FHE.asEuint64 goal in
     let* total := sload totalRaisedEnc in
     sstore (set_lastGoalReachedCache (FHE.ge total goalEnc))) >>
  let* c := sload lastGoalReachedCache in
  FHE_allow (hb c) (self env) >>
  let* c := sload lastGoalReachedCache in
  let* o := sload owner in
  FHE_allow (hb c) o >>
  let* c := sload lastGoalReachedCache in
  FHE_allow (hb c) sender >>
  let* c := sload lastGoalReachedCache in
  FHE_allow (hb c) (oracleAddress env) >>
  sload lastGoalReachedCache.

Definition _setDecryptionPermissions (sender : address) (encAmount : euint64) : M unit :=
  let* t := sload totalRaisedEnc in
  FHE_allow (h64 t) (self env) >>
  let* t := sload totalRaisedEnc in
  let* o := sload owner in
  FHE_allow (h64 t) o >>
  let* t := sload totalRaisedEnc in
  FHE_allow (h64 t) (oracleAddress env) >>
  let* mine := sload (fun s => contributionOf s sender) in
  FHE_allow (h64 mine) sender.

(** ** External functions *)

Definition contributeUSDC (sender : address) (amount6 : Z) (encHandle : Z)
    (inputProof : list Byte.byte) : M unit :=
  campaignActive >>
  require (0 <? amount6) "Amount cannot be zero" >>
  let* lo := sload minContribution in
  let* hi := sload maxContribution in
  require ((lo <=? amount6) && (amount6 <=? hi)) "Amount outside bounds" >>
  let* to := sload treasury in
  let* success := usdc_transferFrom sender to amount6 in
  require success "USDC transfer failed" >>
  let* encAmount := FHE_fromExternal sender encHandle inputProof in
  let* i := sload totalInitialized in
  (if negb i
   then sstore (set_totalRaisedEnc encAmount) >>
        sstore (set_totalInitialized true)
   else let* t := sload totalRaisedEnc in
        sstore (set_totalRaisedEnc (FHE.add t encAmount))) >>
  let* had := sload (fun s => hasContributed s sender) in
  let isFirstContribution := negb had in
  (if isFirstContribution
   then sstore (set_hasContributedMap sender true) >>
        sstore (set_contributionAmounts sender encAmount) >>
        let* n := sload contributorCount in
        sstore (set_contributorCount (wrap64 (n + 1)))
   else let* mine := sload (fun s => contributionOf s sender) in
        sstore (set_contributionAmounts sender (FHE.add mine encAmount))) >>
  _setDecryptionPermissions sender encAmount >>
  let* now := timestamp in
  emit (Contributed sender isFirstContribution now) >>
  _updateGoalStatus sender >>
  ret tt.

Definition checkGoalReached (sender : address) : M ebool :=
  _updateGoalStatus sender.

Definition getLastGoalStatus : M ebool := sload lastGoalReachedCache.

Definition getTotalRaised : M euint64 :=
  hasTotalInitialized >> sload totalRaisedEnc.

Definition getContributionAmount (contributor : address) : M euint64 :=
  let* had := sload (fun s => hasContributed s contributor) in
  require had "Address has not contributed" >>
  sload (fun s => contributionOf s contributor).

Definition finalizeCampaign : M unit :=
  let* now := timestamp in
  let* d := sload deadline in
  require (d <=? now) "Campaign still active" >>
  let* f := sload campaignFinalized in
  require (negb f) "Campaign already finalized" >>
  sstore (set_campaignFinalized true) >>
  let* goalMet := sload totalInitialized in
  let* now := timestamp in
  emit (CampaignEnded goalMet now).

Definition updateGoal (sender : address) (newGoalMicro : Z) : M unit :=
  onlyOwner sender >>
  campaignActive >>
  revert_if (newGoalMicro =? 0) InvalidGoal >>
  let* oldGoal := sload fundingGoal in
  sstore (set_fundingGoal newGoalMicro) >>
  _updateGoalStatus sender >>
  emit (GoalUpdated oldGoal newGoalMicro).

Definition extendDeadline (sender : address) (additionalDays : Z) : M unit :=
  onlyOwner sender >>
  let* f := sload campaignFinalized in
  require (negb f) "Campaign already finalized" >>
  revert_if (additionalDays =? 0) InvalidDeadline >>
  let* oldDeadline := sload deadline in
  let* extra := checked_mul64 additionalDays one_day in
  let* d := sload deadline in
  let* d' := checked_add64 d extra in
  sstore (set_deadline d') >>
  let* newDeadline := sload deadline in
  emit (DeadlineExtended oldDeadline newDeadline).

Definition grantPublicDecrypt : M unit :=
  let* c := sload lastGoalReachedCache in
  FHE_allow (hb c) (self env) >>
  let* c := sload lastGoalReachedCache in
  let* o := sload owner in
  FHE_allow (hb c) o >>
  let* c := sload lastGoalReachedCache in
  FHE_allow (hb c) (oracleAddress env) >>
  let* i := sload totalInitialized in
  if i
  then let* t := sload totalRaisedEnc in
       FHE_allow (h64 t) (self env) >>
       let* t := sload totalRaisedEnc in
       let* o := sload owner in
       FHE_allow (h64 t) o >>
       let* t := sload totalRaisedEnc in
       FHE_allow (h64 t) (oracleAddress env)
  else ret tt.

Definition isFinalized : M bool := sload campaignFinalized.

Definition isActive : M bool :=
  let* now := timestamp in
  let* d := sload deadline in
  let* f := sload campaignFinalized in
  ret ((now <? d) && negb f).

Definition getTimeRemaining : M Z :=
  let* now := timestamp in
  let* d := sload deadline in
  if d <=? now then ret 0 else ret (d - wrap64 now).

Definition isInitialized : M bool := sload totalInitialized.

(** ** Deployment *)

Definition constructor (sender : address) (now : Z)
    (_goalMicro _durationDays _minContributionMicro _maxContributionMicro : Z)
    (_usdc _treasury : address) : Error + Storage :=
  if _goalMicro =? 0 then inl InvalidGoal
  else if _durationDays =? 0 then inl InvalidDeadline
  else if (_minContributionMicro =? 0) || (_maxContributionMicro <? _minContributionMicro)
  then inl InvalidContributionLimits
  else if negb (negb (_usdc =? 0) && negb (_treasury =? 0))
  then inl (RequireFailed "Invalid addresses")
  else if negb (_durationDays * one_day <? 2 ^ 64) then inl Panic
  else if negb (now + _durationDays * one_day <? 2 ^ 256) then inl Panic
  else inr (mkStorage sender _usdc _treasury _goalMicro
              _minContributionMicro _maxContributionMicro
              (wrap64 (now + _durationDays * one_day))
              FHE.uninit64 FHE.uninitb ∅ ∅ 0 false false).

Definition deploy (s : Storage) (t : T) (now : Z) : World :=
  mkWorld s [] t [] [] now.

(** ** Transactions *)

Inductive Call : Type :=
| call_contributeUSDC (amount6 : Z) (encHandle : Z) (inputProof : list Byte.byte)
| call_checkGoalReached
| call_finalizeCampaign
| call_updateGoal (newGoalMicro : Z)
| call_extendDeadline (additionalDays : Z)
| call_grantPublicDecrypt.

Definition dispatch (sender : address) (c : Call) : M unit :=
  match c with
  | call_contributeUSDC amount6 encHandle inputProof =>
      contributeUSDC sender amount6 encHandle inputProof
  | call_checkGoalReached => checkGoalReached sender >> ret tt
  | call_finalizeCampaign => finalizeCampaign
  | call_updateGoal g => updateGoal sender g
  | call_extendDeadline d => extendDeadline sender d
  | call_grantPublicDecrypt => grantPublicDecrypt
  end.

(** A transaction commits all of its effects or none of them. *)
Definition exec (sender : address) (c : Call) (w : World) : World * option Error :=
  match dispatch sender c w with
  | Done _ w' => (w', None)
  | Abort e _ => (w, Some e)
  end.

(** What the chain does between two states: a transaction, the clock
    moving on, or the token changing under other people's transactions. *)
Inductive Action : Type :=
| tx (sender : address) (c : Call)
| tick (seconds : Z)
| token_moves (t : T).

Definition act (a : Action) (w : World) : World :=
  match a with
  | tx sender c => fst (exec sender c w)
  | tick n => with_timestamp (block_timestamp w + Z.max 0 n) w
  | token_moves t => with_token t w
  end.

Definition run (l : list Action) (w : World) : World := foldl (fun w a => act a w) w l.

(** ** Vocabulary for the statements *)

Definition world_of {A} (o : Outcome A) : World :=
  match o with Done _ w => w | Abort _ w => w end.

(** The ledger part of [contributeUSDC]: everything after the encrypted
    input has been accepted.  It is the tail of the function, word for
    word (lemma [contributeUSDC_unfold]). *)
Definition credit (sender : address) (encAmount : euint64) : M unit :=
  let* i := sload totalInitialized in
  (if negb i
   then sstore (set_totalRaisedEnc encAmount) >>
        sstore (set_totalInitialized true)
   else let* t := sload totalRaisedEnc in
        sstore (set_totalRaisedEnc (FHE.add t encAmount))) >>
  let* had := sload (fun s => hasContributed s sender) in
  let isFirstContribution := negb had in
  (if isFirstContribution
   then sstore (set_hasContributedMap sender true) >>
        sstore (set_contributionAmounts sender encAmount) >>
        let* n := sload contributorCount in
        sstore (set_contributorCount (wrap64 (n + 1)))
   else let* mine := sload (fun s => contributionOf s sender) in
        sstore (set_contributionAmounts sender (FHE.add mine encAmount))) >>
  _setDecryptionPermissions sender encAmount >>
  let* now := timestamp in
  emit (Contributed sender isFirstContribution now) >>
  _updateGoalStatus sender >>
  ret tt.

Definition credited (sender : address) (encAmount : euint64) (w : World) : World :=
  world_of (credit sender encAmount w).

Definition recomputed (sender : address) (w : World) : World :=
  world_of (_updateGoalStatus sender w).

Definition granted (w : World) : World := world_of (grantPublicDecrypt w).

(** What a contribution of [e] by [sender] leaves in the aggregate, in
    the sender's record and in the counter, and what a recomputation
    leaves in the goal-status cache. *)
Definition total_after (e : euint64) (s : Storage) : euint64 :=
  if totalInitialized s then FHE.add (totalRaisedEnc s) e else e.

Definition record_after (sender : address) (e : euint64) (s : Storage) : euint64 :=
  if hasContributed s sender then FHE.add (contributionOf s sender) e else e.

Definition count_after (sender : address) (s : Storage) : Z :=
  if hasContributed s sender then contributorCount s
  else wrap64 (contributorCount s + 1).

Definition goal_status (s : Storage) : ebool :=
  if totalInitialized s
  then FHE.ge (totalRaisedEnc s) (FHE.asEuint64 (fundingGoal s))
  else FHE.asEbool false.

(** The world in which the token has answered a [transferFrom]. *)
Definition paid (from : address) (amount : Z) (t : T) (w : World) : World :=
  with_token t (with_transfer (from, treasury (storage w), amount) w).

(** The guards of [contributeUSDC] that do not involve the token. *)
Definition admissible (sender : address) (amount6 encHandle : Z)
    (inputProof : list Byte.byte) (w : World) : Prop :=
  block_timestamp w < deadline (storage w) /\
  campaignFinalized (storage w) = false /\
  0 < amount6 /\
  minContribution (storage w) <= amount6 <= maxContribution (storage w) /\
  verifyInput env (self env) sender encHandle inputProof = true.

(** A transaction went through. *)
Definition accepted (sender : address) (c : Call) (w : World) : bool :=
  bool_decide (snd (exec sender c w) = None).

(** The plaintext total raised: nothing before the first contribution. *)
Definition raised (pt : Z -> Z) (s : Storage) : Z :=
  if totalInitialized s then FHE.decrypt pt (totalRaisedEnc s) else 0.

(** The committed effects a single action can have. *)
Inductive Committed (w : World) : World -> Prop :=
| commit_nothing : Committed w w
| commit_contribution sender amount6 encHandle inputProof t' :
    admissible sender amount6 encHandle inputProof w ->
    transferFrom (self env) sender (treasury (storage w)) amount6 (token w)
      = Some (true, t') ->
    Committed w (credited sender (FHE.ext64 encHandle) (paid sender amount6 t' w))
| commit_check sender : Committed w (recomputed sender w)
| commit_finalize :
    deadline (storage w) <= block_timestamp w ->
    campaignFinalized (storage w) = false ->
    Committed w
      (with_event (CampaignEnded (totalInitialized (storage w)) (block_timestamp w))
         (with_storage (set_campaignFinalized true) w))
| commit_goal sender newGoal :
    sender = owner (storage w) ->
    block_timestamp w < deadline (storage w) ->
    campaignFinalized (storage w) = false ->
    newGoal <> 0 ->
    Committed w
      (with_event (GoalUpdated (fundingGoal (storage w)) newGoal)
         (recomputed sender (with_storage (set_fundingGoal newGoal) w)))
| commit_extension sender days :
    sender = owner (storage w) ->
    campaignFinalized (storage w) = false ->
    days <> 0 ->
    days * one_day < 2 ^ 64 ->
    deadline (storage w) + days * one_day < 2 ^ 64 ->
    Committed w
      (with_event
         (DeadlineExtended (deadline (storage w))
            (deadline (storage w) + days * one_day))
         (with_storage (set_deadline (deadline (storage w) + days * one_day)) w))
| commit_grant : Committed w (granted w)
| commit_tick n : 0 <= n -> Committed w (with_timestamp (block_timestamp w + n) w)
| commit_token t : Committed w (with_token t w).

(** The worlds a run goes through, and how often a flag rises from
    [false] to [true] along a sequence of readings. *)
Fixpoint visited (l : list Action) (w : World) : list World :=
  match l with
  | [] => []
  | a :: l' => act a w :: visited l' (act a w)
  end.

Fixpoint rises (b : bool) (l : list bool) : nat :=
  match l with
  | [] => 0%nat
  | b' :: l' => ((if negb b && b' then 1 else 0) + rises b' l')%nat
  end.

Definition is_accepted_contribution (a : Action) (w : World) : bool :=
  match a with
  | tx sender (call_contributeUSDC amount6 encHandle inputProof) =>
      accepted sender (call_contributeUSDC amount6 encHandle inputProof) w
  | _ => false
  end.

Fixpoint accepted_contributions (l : list Action) (w : World) : nat :=
  match l with
  | [] => 0%nat
  | a :: l' =>
      ((if is_accepted_contribution a w then 1 else 0)
       + accepted_contributions l' (act a w))%nat
  end.

(** Storage whose integers are in the range of their types and within
    the limits the constructor and [updateGoal] enforce, and actions
    whose arguments are in the range of their types. *)
Definition well_formed (s : Storage) : Prop :=
  0 < fundingGoal s < 2 ^ 64 /\
  0 < minContribution s <= maxContribution s /\
  maxContribution s < 2 ^ 64 /\
  is_uint64 (deadline s) /\
  is_uint64 (contributorCount s).

Definition well_typed (a : Action) : Prop :=
  match a with
  | tx _ (call_updateGoal newGoalMicro) => is_uint64 newGoalMicro
  | tx _ (call_extendDeadline additionalDays) => is_uint64 additionalDays
  | _ => True
  end.

(** The cache invariant: the cached goal status is the status of the
    current aggregate and the current goal, or it is still the zero
    handle of a campaign that has no contribution and on which the
    status was never computed. *)
Definition cache_in_sync (s : Storage) : Prop :=
  lastGoalReachedCache s = goal_status s \/
  (lastGoalReachedCache s = FHE.uninitb /\ totalInitialized s = false).

(** The lifecycle invariant: a finalized campaign is past its deadline. *)
Definition lifecycle_ok (w : World) : Prop :=
  campaignFinalized (storage w) = true -> deadline (storage w) <= block_timestamp w.

(** A contribution as it is submitted, and a run made of contributions. *)
Record Contribution : Type := mkContribution {
  c_sender : address;
  c_amount6 : Z;
  c_handle : Z;
  c_proof : list Byte.byte
}.

Definition contribute (c : Contribution) : Action :=
  tx (c_sender c) (call_contributeUSDC (c_amount6 c) (c_handle c) (c_proof c)).

Fixpoint all_accepted (cs : list Contribution) (w : World) : bool :=
  match cs with
  | [] => true
  | c :: cs' =>
      is_accepted_contribution (contribute c) w
      && all_accepted cs' (act (contribute c) w)
  end.

(** The amounts the contributors encrypted, as the oracle would decrypt them. *)
Definition amounts (pt : Z -> Z) (cs : list Contribution) : list Z :=
  map (fun c => FHE.decrypt pt (FHE.ext64 (c_handle c))) cs.

Definition total (l : list Z) : Z := foldr Z.add 0 l.

(** ** Vocabulary for the properties of the remaining functions *)

Definition usdcDecimals : M Z := ret 6.

(** What an action commits, together with the action that commits it. *)
Inductive Effect (w : World) : Action -> World -> Prop :=
| effect_rejected sender c :
    accepted sender c w = false -> Effect w (tx sender c) w
| effect_contribution sender amount6 encHandle inputProof t' :
    admissible sender amount6 encHandle inputProof w ->
    transferFrom (self env) sender (treasury (storage w)) amount6 (token w)
      = Some (true, t') ->
    Effect w (tx sender (call_contributeUSDC amount6 encHandle inputProof))
      (credited sender (FHE.ext64 encHandle) (paid sender amount6 t' w))
| effect_check sender :
    Effect w (tx sender call_checkGoalReached) (recomputed sender w)
| effect_finalize sender :
    deadline (storage w) <= block_timestamp w ->
    campaignFinalized (storage w) = false ->
    Effect w (tx sender call_finalizeCampaign)
      (with_event (CampaignEnded (totalInitialized (storage w)) (block_timestamp w))
         (with_storage (set_campaignFinalized true) w))
| effect_goal newGoal :
    block_timestamp w < deadline (storage w) ->
    campaignFinalized (storage w) = false ->
    newGoal <> 0 ->
    Effect w (tx (owner (storage w)) (call_updateGoal newGoal))
      (with_event (GoalUpdated (fundingGoal (storage w)) newGoal)
         (recomputed (owner (storage w)) (with_storage (set_fundingGoal newGoal) w)))
| effect_extension days :
    campaignFinalized (storage w) = false ->
    days <> 0 ->
    days * one_day < 2 ^ 64 ->
    deadline (storage w) + days * one_day < 2 ^ 64 ->
    Effect w (tx (owner (storage w)) (call_extendDeadline days))
      (with_event
         (DeadlineExtended (deadline (storage w))
            (deadline (storage w) + days * one_day))
         (with_storage (set_deadline (deadline (storage w) + days * one_day)) w))
| effect_grant sender :
    Effect w (tx sender call_grantPublicDecrypt) (granted w)
| effect_tick n :
    Effect w (tick n) (with_timestamp (block_timestamp w + Z.max 0 n) w)
| effect_token t :
    Effect w (token_moves t) (with_token t w).

(** A contributor's plaintext total: nothing for an address without a
    record. *)
Definition record (pt : Z -> Z) (s : Storage) (who : address) : Z :=
  if hasContributed s who then FHE.decrypt pt (contributionOf s who) else 0.

(** What the accepted contributions of [who] along a run add up to. *)
Definition gift (pt : Z -> Z) (who : address) (a : Action) (w : World) : Z :=
  match a with
  | tx sender (call_contributeUSDC _ encHandle _) =>
      if is_accepted_contribution a w && bool_decide (sender = who)
      then FHE.decrypt pt (FHE.ext64 encHandle)
      else 0
  | _ => 0
  end.

Fixpoint given (pt : Z -> Z) (who : address) (l : list Action) (w : World) : Z :=
  match l with
  | [] => 0
  | a :: l' => gift pt who a w + given pt who l' (act a w)
  end.

(** The sum of all the records. *)
Definition records_sum (pt : Z -> Z) (s : Storage) : Z :=
  map_fold (fun (_ : Z) (e : euint64) (acc : Z) => acc + FHE.decrypt pt e) 0
    (contributionAmounts s).

(** The two mappings and the counter agree: only addresses marked as
    contributors have a record, marks are never [false], and the counter
    is the number of marks. *)
Definition ledger_consistent (s : Storage) : Prop :=
  (forall a, hasContributedMap s !! a = None -> contributionAmounts s !! a = None) /\
  (forall a b, hasContributedMap s !! a = Some b -> b = true) /\
  contributorCount s = wrap64 (Z.of_nat (size (hasContributedMap s))).

(** Two storages with the same encrypted ledger. *)
Definition same_ledger (s s' : Storage) : Prop :=
  totalRaisedEnc s' = totalRaisedEnc s /\
  totalInitialized s' = totalInitialized s /\
  hasContributedMap s' = hasContributedMap s /\
  contributionAmounts s' = contributionAmounts s /\
  contributorCount s' = contributorCount s.

(** The [transferFrom] calls a run commits. *)
Definition payment (a : Action) (w : World) : list (address * address * Z) :=
  match a with
  | tx sender (call_contributeUSDC amount6 _ _) =>
      if is_accepted_contribution a w
      then [(sender, treasury (storage w), amount6)]
      else []
  | _ => []
  end.

Fixpoint payments (l : list Action) (w : World) : list (address * address * Z) :=
  match l with
  | [] => []
  | a :: l' => payment a w ++ payments l' (act a w)
  end.

(** The sender of a transaction. *)
Definition sent_by (who : address) (a : Action) : Prop :=
  match a with
  | tx sender _ => sender = who
  | _ => False
  end.

Definition is_CampaignEnded (e : Event) : bool :=
  match e with CampaignEnded _ _ => true | _ => false end.

(** The log holds one [CampaignEnded] event if the campaign is
    finalized and none otherwise. *)
Definition ended_once (w : World) : Prop :=
  length (List.filter is_CampaignEnded (events w)) =
  if campaignFinalized (storage w) then 1%nat else 0%nat.

End Contract.

Arguments Done {T A} a w.
Arguments Abort {T A} e w.
Arguments recomputed : simpl never.
Arguments credited : simpl never.
Arguments granted : simpl never.

Notation "'let*' x ':=' c 'in' k" := (bind c (fun x => k))
  (at level 10, x name, c at level 100, k at level 200).
Notation "c '>>' k" := (bind c (fun _ => k))
  (at level 100, k at level 200, right associativity).

(** ** Two campaigns to run the contract on *)

Module Scenario.

(** The contract sits at address 100, the oracle at 200, and the input
    verifier accepts every proof. *)
Definition env : Env := mkEnv 100 200 (fun _ _ _ _ => true).

Definition deployer : address := 1.
Definition alice : address := 7.
Definition bob : address := 8.
Definition usdc_address : address := 55.
Definition treasury_address : address := 66.

(** The deployment of the contract's header comment: a goal of 1000
    USDC, 30 days, contributions between 1 and 100 USDC. *)
Definition campaign : Storage :=
  mkStorage deployer usdc_address treasury_address 1000000000 1000000 100000000
    (30 * one_day) FHE.uninit64 FHE.uninitb ∅ ∅ 0 false false.

(** The same campaign with the widest contribution bounds the
    constructor admits. *)
Definition wide_campaign : Storage :=
  mkStorage deployer usdc_address treasury_address 1000000000 1 (2 ^ 64 - 1)
    (30 * one_day) FHE.uninit64 FHE.uninitb ∅ ∅ 0 false false.

(** Alice and Bob hold 2^64 micro-USDC each and have approved the
    contract for all of it. *)
Definition purse : SimpleToken.Ledger :=
  SimpleToken.funded (self env) [alice; bob] (2 ^ 64).

Definition genesis : World := deploy campaign purse 0.
Definition wide_genesis : World := deploy wide_campaign purse 0.

(** The campaign on the token that reverts. *)
Definition strict_genesis : World := deploy campaign (StrictToken.mkVault purse) 0.

(** Alice gives 10 USDC under handle 1, Bob 20 USDC under handle 2. *)
Definition alice_gives : Contribution := mkContribution alice 10000000 1 [].
Definition bob_gives : Contribution := mkContribution bob 20000000 2 [].

(** The plaintext behind handle [id] is [id] times 10 USDC. *)
Definition tens (id : Z) : Z := id * 10000000.

Definition after_alice : World := act env (contribute alice_gives) genesis.
Definition after_both : World := act env (contribute bob_gives) after_alice.

(** One contribution, then the deadline passes and Bob finalizes. *)
Definition ended : World :=
  run env [contribute alice_gives; tick (30 * one_day); tx bob call_finalizeCampaign]
    genesis.

(** The deadline has passed and nobody has finalized. *)
Definition expired : World := act env (tick (31 * one_day)) genesis.

(** A campaign on the token that always pays, and the first [n] of a
    crowd of contributors at the addresses 1000, 1001, ..., each giving
    1 USDC under a handle of their own. *)
Definition open_genesis : World := deploy campaign tt 0.

Definition member (k : nat) : Contribution :=
  mkContribution (1000 + Z.of_nat k) 1000000 (Z.of_nat k) [].

Definition crowd (n : nat) : list Contribution := map member (seq 0 n).

Definition crowded (n : nat) : World :=
  run env (map contribute (crowd n)) open_genesis.

(** The campaign after 2^64 - 1 members of the crowd have contributed. *)
Definition full_crowd : World := crowded (Z.to_nat (2 ^ 64 - 1)).

End Scenario.

(** * Properties *)

Section Properties.

Context {T : Type} `{Token : IERC20 T}.
Variable env : Env.

Local Abbreviation World := (@World T).
Implicit Types w : World.


(** ** How each function runs *)

Lemma contributeUSDC_unfold sender amount6 encHandle inputProof :
  contributeUSDC env sender amount6 encHandle inputProof =
  (campaignActive >>
   require (0 <? amount6) "Amount cannot be zero" >>
   let* lo := sload minContribution in
   let* hi := sload maxContribution in
   require ((lo <=? amount6) && (amount6 <=? hi)) "Amount outside bounds" >>
   let* to := sload treasury in
   let* success := usdc_transferFrom env sender to amount6 in
   require success "USDC transfer failed" >>
   let* encAmount := FHE_fromExternal env sender encHandle inputProof in
   credit env sender encAmount).
Proof. reflexivity. Qed.

Lemma _updateGoalStatus_Done sender w :
  _updateGoalStatus env sender w =
  Done (lastGoalReachedCache (storage (recomputed env sender w))) (recomputed env sender w).
Proof.
  unfold recomputed, _updateGoalStatus, bind, sload, sstore, FHE_allow.
  destruct (totalInitialized (storage w)); reflexivity.
Qed.

Lemma recomputed_eq sender w :
  recomputed env sender w =
  let c := goal_status (storage w) in
  mkWorld (set_lastGoalReachedCache c (storage w))
    ((hb c, oracleAddress env) :: (hb c, sender) :: (hb c, owner (storage w))
       :: (hb c, self env) :: acl w)
    (token w) (transfers w) (events w) (block_timestamp w).
Proof.
  unfold recomputed, goal_status, _updateGoalStatus, bind, sload, sstore, FHE_allow.
  destruct w as [s l t c e n]. simpl.
  destruct (totalInitialized s); reflexivity.
Qed.

Lemma Done_world_of (c : M unit) (w w' : World) : c w = Done tt w' -> c w = Done tt (world_of (c w)).
Proof. intros ->. reflexivity. Qed.

Lemma credit_Done sender e w : credit env sender e w = Done tt (credited env sender e w).
Proof.
  unfold credited.
  cut (exists w', credit env sender e w = Done tt w').
  { intros [w' Hw']. exact (Done_world_of _ _ _ Hw'). }
  unfold credit, bind, sload, sstore.
  destruct (negb (totalInitialized (storage w)));
    match goal with
    | |- context [negb (hasContributed ?s sender)] =>
        destruct (negb (hasContributed s sender))
    end;
    unfold _setDecryptionPermissions, bind, sload, FHE_allow, timestamp, emit;
    rewrite _updateGoalStatus_Done; eexists; reflexivity.
Qed.

Lemma credited_eq sender e w :
  credited env sender e w =
  let s := storage w in
  recomputed env sender
    (mkWorld
       (mkStorage (owner s) (usdc s) (treasury s) (fundingGoal s)
          (minContribution s) (maxContribution s) (deadline s)
          (total_after e s) (lastGoalReachedCache s)
          (if hasContributed s sender then hasContributedMap s
           else <[sender := true]> (hasContributedMap s))
          (<[sender := record_after sender e s]> (contributionAmounts s))
          (count_after sender s) true (campaignFinalized s))
       ((h64 (record_after sender e s), sender)
          :: (h64 (total_after e s), oracleAddress env)
          :: (h64 (total_after e s), owner s)
          :: (h64 (total_after e s), self env) :: acl w)
       (token w) (transfers w)
       (events w ++ [Contributed sender (negb (hasContributed s sender))
                       (block_timestamp w)])
       (block_timestamp w)).
Proof.
  unfold credited, recomputed, credit, _setDecryptionPermissions, _updateGoalStatus,
    bind, sload, sstore, FHE_allow, timestamp, emit, ret,
    total_after, record_after, count_after, hasContributed, contributionOf.
  destruct w as [[o u tr g lo hi d tot cache has amts cnt ini fin] l t c ev n].
  cbn.
  destruct ini; cbn; destruct (has !! sender) as [[|]|]; cbn;
    rewrite ?lookup_insert_eq; reflexivity.
Qed.

Lemma granted_eq w :
  granted env w =
  let s := storage w in
  let c := lastGoalReachedCache s in
  let t := totalRaisedEnc s in
  with_acl (fun l =>
    (if totalInitialized s
     then [(h64 t, oracleAddress env); (h64 t, owner s); (h64 t, self env)]
     else [])
    ++ (hb c, oracleAddress env) :: (hb c, owner s) :: (hb c, self env) :: l) w.
Proof.
  unfold granted, grantPublicDecrypt, bind, sload, FHE_allow, ret.
  destruct w as [s l t c e n]. simpl.
  destruct (totalInitialized s); reflexivity.
Qed.

Lemma grantPublicDecrypt_Done w : grantPublicDecrypt env w = Done tt (granted env w).
Proof.
  unfold granted.
  cut (exists w', grantPublicDecrypt env w = Done tt w').
  { intros [w' Hw']. exact (Done_world_of _ _ _ Hw'). }
  unfold grantPublicDecrypt, bind, sload, FHE_allow, ret. simpl.
  destruct (totalInitialized (storage w)); eexists; reflexivity.
Qed.

Lemma contributeUSDC_cases sender amount6 encHandle inputProof w :
  contributeUSDC env sender amount6 encHandle inputProof w =
  if deadline (storage w) <=? block_timestamp w then Abort CampaignExpired w
  else if campaignFinalized (storage w) then Abort CampaignAlreadyFinalized w
  else if negb (0 <? amount6) then Abort (RequireFailed "Amount cannot be zero") w
  else if negb ((minContribution (storage w) <=? amount6)
                && (amount6 <=? maxContribution (storage w)))
  then Abort (RequireFailed "Amount outside bounds") w
  else
    match transferFrom (self env) sender (treasury (storage w)) amount6 (token w) with
    | None =>
        Abort ExternalFailure
          (with_transfer (sender, treasury (storage w), amount6) w)
    | Some (false, t') =>
        Abort (RequireFailed "USDC transfer failed") (paid sender amount6 t' w)
    | Some (true, t') =>
        if verifyInput env (self env) sender encHandle inputProof
        then Done tt (credited env sender (FHE.ext64 encHandle) (paid sender amount6 t' w))
        else Abort ExternalFailure (paid sender amount6 t' w)
    end.
Proof.
  rewrite contributeUSDC_unfold.
  unfold campaignActive, bind, timestamp, sload, revert_if, require, revert, ret,
    usdc_transferFrom, FHE_fromExternal, paid.
  destruct (deadline (storage w) <=? block_timestamp w); [reflexivity|].
  destruct (campaignFinalized (storage w)); [reflexivity|].
  destruct (0 <? amount6); [|reflexivity]. simpl.
  destruct ((minContribution (storage w) <=? amount6)
            && (amount6 <=? maxContribution (storage w))); [|reflexivity].
  simpl.
  destruct (transferFrom _ _ _ _ _) as [[[|] t']|]; try reflexivity.
  simpl.
  destruct (verifyInput _ _ _ _ _); [|reflexivity].
  apply credit_Done.
Qed.

Lemma finalizeCampaign_cases w :
  finalizeCampaign w =
  if negb (deadline (storage w) <=? block_timestamp w)
  then Abort (RequireFailed "Campaign still active") w
  else if campaignFinalized (storage w)
  then Abort (RequireFailed "Campaign already finalized") w
  else Done tt
         (with_event
            (CampaignEnded (totalInitialized (storage w)) (block_timestamp w))
            (with_storage (set_campaignFinalized true) w)).
Proof.
  unfold finalizeCampaign, bind, timestamp, sload, sstore, require, revert, ret, emit.
  destruct (deadline (storage w) <=? block_timestamp w); [|reflexivity].
  destruct (campaignFinalized (storage w)); reflexivity.
Qed.

Lemma updateGoal_cases sender newGoal w :
  updateGoal env sender newGoal w =
  if negb (bool_decide (sender = owner (storage w))) then Abort NotOwner w
  else if deadline (storage w) <=? block_timestamp w then Abort CampaignExpired w
  else if campaignFinalized (storage w) then Abort CampaignAlreadyFinalized w
  else if newGoal =? 0 then Abort InvalidGoal w
  else Done tt
         (with_event (GoalUpdated (fundingGoal (storage w)) newGoal)
            (recomputed env sender (with_storage (set_fundingGoal newGoal) w))).
Proof.
  unfold updateGoal, onlyOwner, campaignActive, bind, timestamp, sload, sstore,
    revert_if, revert, ret, emit.
  destruct (negb (bool_decide (sender = owner (storage w)))); [reflexivity|].
  destruct (deadline (storage w) <=? block_timestamp w); [reflexivity|].
  destruct (campaignFinalized (storage w)); [reflexivity|].
  destruct (newGoal =? 0); [reflexivity|].
  rewrite _updateGoalStatus_Done. reflexivity.
Qed.

Lemma extendDeadline_cases sender days w :
  extendDeadline sender days w =
  if negb (bool_decide (sender = owner (storage w))) then Abort NotOwner w
  else if campaignFinalized (storage w)
  then Abort (RequireFailed "Campaign already finalized") w
  else if days =? 0 then Abort InvalidDeadline w
  else if negb (days * one_day <? 2 ^ 64) then Abort Panic w
  else if negb (deadline (storage w) + days * one_day <? 2 ^ 64) then Abort Panic w
  else Done tt
         (with_event
            (DeadlineExtended (deadline (storage w))
               (deadline (storage w) + days * one_day))
            (with_storage (set_deadline (deadline (storage w) + days * one_day)) w)).
Proof.
  unfold extendDeadline, onlyOwner, bind, sload, sstore, require,
    revert_if, revert, ret, emit, checked_mul64, checked_add64.
  destruct (negb (bool_decide (sender = owner (storage w)))); [reflexivity|].
  destruct (campaignFinalized (storage w)); [reflexivity|]. simpl.
  destruct (days =? 0); [reflexivity|].
  destruct (days * one_day <? 2 ^ 64); [|reflexivity]. simpl.
  destruct (deadline (storage w) + days * one_day <? 2 ^ 64); reflexivity.
Qed.

Lemma checkGoalReached_Done sender w :
  dispatch env sender call_checkGoalReached w = Done tt (recomputed env sender w).
Proof.
  unfold dispatch, checkGoalReached, bind. rewrite _updateGoalStatus_Done. reflexivity.
Qed.

(** Every action commits one of the effects of [Committed env]. *)
Lemma act_committed a w : Committed env w (act env a w).
Proof.
  destruct a as [sender c|n|t]; simpl.
  - unfold exec. destruct c as [a h p| | |g|d|];
      [|rewrite checkGoalReached_Done; apply commit_check| | | |]; simpl.
    + rewrite contributeUSDC_cases.
      destruct (deadline (storage w) <=? block_timestamp w) eqn:Hd;
        [apply commit_nothing|].
      destruct (campaignFinalized (storage w)) eqn:Hf; [apply commit_nothing|].
      destruct (0 <? a) eqn:Ha; [|apply commit_nothing]. simpl.
      destruct ((minContribution (storage w) <=? a)
                && (a <=? maxContribution (storage w))) eqn:Hb;
        [|apply commit_nothing].
      simpl.
      destruct (transferFrom _ _ _ _ _) as [[[|] t']|] eqn:Ht;
        try apply commit_nothing.
      destruct (verifyInput _ _ _ _ _) eqn:Hv; [|apply commit_nothing].
      simpl. apply (commit_contribution env w sender a h p t'); [|exact Ht].
      apply andb_prop in Hb as [Hlo Hhi].
      unfold admissible. repeat split; try assumption; lia.
    + rewrite finalizeCampaign_cases.
      destruct (deadline (storage w) <=? block_timestamp w) eqn:Hd;
        [|apply commit_nothing].
      destruct (campaignFinalized (storage w)) eqn:Hf; [apply commit_nothing|].
      simpl. apply commit_finalize; [lia|assumption].
    + rewrite updateGoal_cases.
      destruct (bool_decide (sender = owner (storage w))) eqn:Ho;
        [|apply commit_nothing].
      destruct (deadline (storage w) <=? block_timestamp w) eqn:Hd;
        [apply commit_nothing|].
      destruct (campaignFinalized (storage w)) eqn:Hf; [apply commit_nothing|].
      destruct (g =? 0) eqn:Hg; [apply commit_nothing|].
      simpl. apply bool_decide_eq_true in Ho.
      apply commit_goal; try assumption; lia.
    + rewrite extendDeadline_cases.
      destruct (bool_decide (sender = owner (storage w))) eqn:Ho;
        [|apply commit_nothing].
      destruct (campaignFinalized (storage w)) eqn:Hf; [apply commit_nothing|].
      destruct (d =? 0) eqn:Hz; [apply commit_nothing|].
      destruct (d * one_day <? 2 ^ 64) eqn:Hm; [|apply commit_nothing].
      destruct (deadline (storage w) + d * one_day <? 2 ^ 64) eqn:Hs;
        [|apply commit_nothing].
      simpl. apply bool_decide_eq_true in Ho.
      apply (commit_extension env w sender d); try assumption; lia.
    + rewrite grantPublicDecrypt_Done. apply commit_grant.
  - apply commit_tick. lia.
  - apply commit_token.
Qed.


(** ** Projections of the closed forms *)

Lemma recomputed_storage sender w :
  storage (recomputed env sender w) =
  set_lastGoalReachedCache (goal_status (storage w)) (storage w).
Proof. rewrite recomputed_eq. reflexivity. Qed.

Lemma credited_storage sender e w :
  storage (credited env sender e w) =
  let s := storage w in
  mkStorage (owner s) (usdc s) (treasury s) (fundingGoal s)
    (minContribution s) (maxContribution s) (deadline s)
    (total_after e s)
    (FHE.ge (total_after e s) (FHE.asEuint64 (fundingGoal s)))
    (if hasContributed s sender then hasContributedMap s
     else <[sender := true]> (hasContributedMap s))
    (<[sender := record_after sender e s]> (contributionAmounts s))
    (count_after sender s) true (campaignFinalized s).
Proof. rewrite credited_eq. reflexivity. Qed.

Lemma granted_storage w : storage (granted env w) = storage w.
Proof. rewrite granted_eq. reflexivity. Qed.

Lemma paid_storage from amount t w : storage (paid from amount t w) = storage w.
Proof. reflexivity. Qed.

(** What [exec] returns for a contribution, by the same cases as
    [contributeUSDC_cases]. *)
Lemma accepted_contribution_iff sender amount6 encHandle inputProof w :
  accepted env sender (call_contributeUSDC amount6 encHandle inputProof) w = true <->
  admissible env sender amount6 encHandle inputProof w /\
  exists t', transferFrom (self env) sender (treasury (storage w)) amount6 (token w)
             = Some (true, t').
Proof.
  unfold accepted, exec, admissible. simpl dispatch.
  rewrite contributeUSDC_cases, bool_decide_eq_true.
  destruct (deadline (storage w) <=? block_timestamp w) eqn:Hd; simpl.
  { split; [discriminate|]. intros [(? & _) _]. lia. }
  destruct (campaignFinalized (storage w)) eqn:Hf; simpl.
  { split; [discriminate|]. intros [(_ & ? & _) _]. discriminate. }
  destruct (0 <? amount6) eqn:Ha; simpl.
  2:{ split; [discriminate|]. intros [(_ & _ & ? & _) _]. lia. }
  destruct ((minContribution (storage w) <=? amount6)
            && (amount6 <=? maxContribution (storage w))) eqn:Hb; simpl.
  2:{ split; [discriminate|]. intros [(_ & _ & _ & ? & _) _].
      apply andb_false_iff in Hb as [Hb|Hb]; lia. }
  apply andb_prop in Hb as [Hlo Hhi].
  destruct (transferFrom _ _ _ _ _) as [[[|] t']|] eqn:Ht; simpl.
  - destruct (verifyInput _ _ _ _ _) eqn:Hv; simpl.
    + split; [intros _|reflexivity].
      split; [repeat split; try assumption; lia | eauto].
    + split; [discriminate|]. intros [(_ & _ & _ & _ & ?) _]. discriminate.
  - split; [discriminate|]. intros [_ [t'' ?]]. discriminate.
  - split; [discriminate|]. intros [_ [t'' ?]]. discriminate.
Qed.

Lemma contributeUSDC_Done_inv sender amount6 encHandle inputProof w u w' :
  contributeUSDC env sender amount6 encHandle inputProof w = Done u w' ->
  admissible env sender amount6 encHandle inputProof w /\
  exists t', transferFrom (self env) sender (treasury (storage w)) amount6 (token w)
             = Some (true, t') /\
             w' = credited env sender (FHE.ext64 encHandle) (paid sender amount6 t' w).
Proof.
  intros H.
  assert (Hacc : accepted env sender (call_contributeUSDC amount6 encHandle inputProof) w
                 = true).
  { unfold accepted, exec. simpl dispatch. rewrite H. reflexivity. }
  apply accepted_contribution_iff in Hacc as [Hadm [t' Ht]].
  split; [exact Hadm|]. exists t'. split; [exact Ht|].
  rewrite contributeUSDC_cases in H.
  destruct Hadm as (Hd & Hf & Ha & [Hlo Hhi] & Hv).
  rewrite Ht, Hf, Hv in H.
  replace (deadline (storage w) <=? block_timestamp w) with false in H
    by (symmetry; apply Z.leb_gt; lia).
  replace (0 <? amount6) with true in H by (symmetry; apply Z.ltb_lt; lia).
  replace (minContribution (storage w) <=? amount6) with true in H
    by (symmetry; apply Z.leb_le; lia).
  replace (amount6 <=? maxContribution (storage w)) with true in H
    by (symmetry; apply Z.leb_le; lia).
  simpl in H. congruence.
Qed.

Lemma contributeUSDC_accept sender amount6 encHandle inputProof w t' :
  admissible env sender amount6 encHandle inputProof w ->
  transferFrom (self env) sender (treasury (storage w)) amount6 (token w)
    = Some (true, t') ->
  contributeUSDC env sender amount6 encHandle inputProof w =
  Done tt (credited env sender (FHE.ext64 encHandle) (paid sender amount6 t' w)).
Proof.
  intros (Hd & Hf & Ha & [Hlo Hhi] & Hv) Ht.
  rewrite contributeUSDC_cases, Ht, Hf, Hv.
  replace (deadline (storage w) <=? block_timestamp w) with false
    by (symmetry; apply Z.leb_gt; lia).
  replace (0 <? amount6) with true by (symmetry; apply Z.ltb_lt; lia).
  replace (minContribution (storage w) <=? amount6) with true
    by (symmetry; apply Z.leb_le; lia).
  replace (amount6 <=? maxContribution (storage w)) with true
    by (symmetry; apply Z.leb_le; lia).
  reflexivity.
Qed.

Lemma exec_rejected sender c w :
  accepted env sender c w = false -> exec env sender c w = (w, snd (exec env sender c w)).
Proof.
  unfold accepted, exec. destruct (dispatch env sender c w); simpl; [|reflexivity].
  discriminate.
Qed.

(** ** The aggregate and its flag *)

Lemma init_step a w :
  totalInitialized (storage (act env a w)) =
  totalInitialized (storage w) || is_accepted_contribution env a w.
Proof.
  destruct a as [sender c|n|t]; simpl; [|symmetry; apply orb_false_r..].
  destruct c as [a h p| | |g|d|]; simpl is_accepted_contribution;
    rewrite ?orb_false_r.
  - destruct (accepted env sender (call_contributeUSDC a h p) w) eqn:Hacc.
    + apply accepted_contribution_iff in Hacc as [Hadm [t' Ht]].
      unfold exec. simpl dispatch.
      rewrite (contributeUSDC_accept _ _ _ _ _ _ Hadm Ht). simpl.
      rewrite credited_storage. simpl. symmetry. apply orb_true_r.
    + rewrite (exec_rejected _ _ _ Hacc). simpl. symmetry. apply orb_false_r.
  - unfold exec. rewrite checkGoalReached_Done. simpl.
    rewrite recomputed_storage. reflexivity.
  - unfold exec. simpl dispatch. rewrite finalizeCampaign_cases.
    destruct (deadline (storage w) <=? block_timestamp w); [|reflexivity].
    destruct (campaignFinalized (storage w)); reflexivity.
  - unfold exec. simpl dispatch. rewrite updateGoal_cases.
    destruct (negb (bool_decide (sender = owner (storage w)))); [reflexivity|].
    destruct (deadline (storage w) <=? block_timestamp w); [reflexivity|].
    destruct (campaignFinalized (storage w)); [reflexivity|].
    destruct (g =? 0); [reflexivity|]. simpl.
    rewrite recomputed_storage. reflexivity.
  - unfold exec. simpl dispatch. rewrite extendDeadline_cases.
    destruct (negb (bool_decide (sender = owner (storage w)))); [reflexivity|].
    destruct (campaignFinalized (storage w)); [reflexivity|].
    destruct (d =? 0); [reflexivity|].
    destruct (negb (d * one_day <? 2 ^ 64)); [reflexivity|].
    destruct (negb (deadline (storage w) + d * one_day <? 2 ^ 64)); reflexivity.
  - unfold exec. simpl dispatch. rewrite grantPublicDecrypt_Done. simpl.
    rewrite granted_storage. reflexivity.
Qed.

Lemma rises_initialized l : forall w,
  rises (totalInitialized (storage w))
    (map (fun x : World => totalInitialized (storage x)) (visited env l w)) =
  if totalInitialized (storage w) then 0%nat
  else if (accepted_contributions env l w =? 0)%nat then 0%nat else 1%nat.
Proof.
  induction l as [|a l IH]; intros w; simpl.
  - destruct (totalInitialized (storage w)); reflexivity.
  - rewrite IH, init_step.
    destruct (totalInitialized (storage w)); simpl; [reflexivity|].
    destruct (is_accepted_contribution env a w); simpl; reflexivity.
Qed.

(** C1. An accepted contribution sets the encrypted aggregate to the
    contributed amount when the aggregate is uninitialised, and to the
    homomorphic sum of the old aggregate and the contributed amount
    otherwise; either way the flag [totalInitialized] is set afterwards.
    Over any run the flag never falls back, it rises exactly at an
    accepted contribution made while it is unset, and so it rises once
    if the run has an accepted contribution and never otherwise. *)
Theorem aggregate_update sender amount6 encHandle inputProof w u w'
    (Haccepted : contributeUSDC env sender amount6 encHandle inputProof w = Done u w') :
  (totalInitialized (storage w) = false ->
     totalRaisedEnc (storage w') = FHE.ext64 encHandle) /\
  (totalInitialized (storage w) = true ->
     totalRaisedEnc (storage w') =
     FHE.add (totalRaisedEnc (storage w)) (FHE.ext64 encHandle)) /\
  totalInitialized (storage w') = true /\
  (forall a w0,
     totalInitialized (storage w0) = true ->
     totalInitialized (storage (act env a w0)) = true) /\
  (forall a w0,
     totalInitialized (storage w0) = false ->
     totalInitialized (storage (act env a w0)) = is_accepted_contribution env a w0) /\
  (forall l w0,
     rises (totalInitialized (storage w0))
       (map (fun x : World => totalInitialized (storage x)) (visited env l w0)) =
     if totalInitialized (storage w0) then 0%nat
     else if (accepted_contributions env l w0 =? 0)%nat then 0%nat else 1%nat).
Proof.
  apply contributeUSDC_Done_inv in Haccepted as [_ [t' [_ ->]]].
  rewrite credited_storage. simpl. unfold total_after.
  repeat split.
  - intros ->. reflexivity.
  - intros ->. reflexivity.
  - intros a w0 H. rewrite init_step, H. reflexivity.
  - intros a w0 H. rewrite init_step, H. reflexivity.
  - intros l w0. apply rises_initialized.
Qed.

(** ** The aggregate as a sum *)

Lemma decrypt_range pt e : 0 <= FHE.decrypt pt e < 2 ^ 64.
Proof.
  destruct e; simpl; unfold wrap64; try apply Z.mod_pos_bound; lia.
Qed.

Lemma decrypt_operand pt e : FHE.decrypt pt (FHE.operand e) = FHE.decrypt pt e.
Proof. destruct e; reflexivity. Qed.

Lemma decrypt_add pt a b :
  FHE.decrypt pt (FHE.add a b) = wrap64 (FHE.decrypt pt a + FHE.decrypt pt b).
Proof. unfold FHE.add. simpl. rewrite !decrypt_operand. reflexivity. Qed.

Lemma raised_range pt s : 0 <= raised pt s < 2 ^ 64.
Proof.
  unfold raised. destruct (totalInitialized s); [apply decrypt_range|lia].
Qed.

Lemma wrap64_small z : 0 <= z < 2 ^ 64 -> wrap64 z = z.
Proof. intros H. unfold wrap64. apply Z.mod_small. exact H. Qed.

Lemma wrap64_add_l a b : wrap64 (wrap64 a + b) = wrap64 (a + b).
Proof. unfold wrap64. apply Zplus_mod_idemp_l. Qed.

Lemma raised_credited pt sender e w :
  raised pt (storage (credited env sender e w)) =
  wrap64 (raised pt (storage w) + FHE.decrypt pt e).
Proof.
  rewrite credited_storage. unfold raised, total_after. simpl.
  destruct (totalInitialized (storage w)).
  - apply decrypt_add.
  - simpl. symmetry. apply wrap64_small, decrypt_range.
Qed.

Lemma run_cons a l w : run env (a :: l) w = run env l (act env a w).
Proof. reflexivity. Qed.

Lemma act_accepted_contribution c w :
  is_accepted_contribution env (contribute c) w = true ->
  exists t',
    act env (contribute c) w =
    credited env (c_sender c) (FHE.ext64 (c_handle c))
      (paid (c_sender c) (c_amount6 c) t' w).
Proof.
  intros Hc. apply accepted_contribution_iff in Hc as [Hadm [t' Ht]].
  exists t'. unfold contribute, act, exec. simpl dispatch.
  rewrite (contributeUSDC_accept _ _ _ _ _ _ Hadm Ht). reflexivity.
Qed.

Lemma raised_all_accepted pt cs : forall w,
  all_accepted env cs w = true ->
  raised pt (storage (run env (map (contribute (T:=T)) cs) w)) =
  wrap64 (raised pt (storage w) + total (amounts pt cs)).
Proof.
  induction cs as [|c cs IH]; intros w Hacc.
  - simpl. rewrite Z.add_0_r. symmetry. apply wrap64_small, raised_range.
  - change (all_accepted env (c :: cs) w) with
      (is_accepted_contribution env (contribute c) w
       && all_accepted env cs (act env (contribute c) w)) in Hacc.
    apply andb_prop in Hacc as [Hc Hcs].
    rewrite map_cons, run_cons, (IH _ Hcs).
    destruct (act_accepted_contribution c w Hc) as [t' ->].
    rewrite raised_credited, paid_storage, wrap64_add_l.
    f_equal. unfold amounts, total. simpl. lia.
Qed.

Lemma total_Permutation (l l' : list Z) : l ≡ₚ l' -> total l = total l'.
Proof.
  induction 1 as [|x l l' _ IH|x y l|l l' l'' _ IH1 _ IH2]; simpl; lia.
Qed.

(** C2, as the code has it.  Starting from a campaign without
    contributions, when the contributions [cs] are all accepted, and so
    are they in the order [cs'], the final aggregate decrypts in both
    orders to the sum of the encrypted amounts modulo 2^64: to the sum
    itself whenever that is below 2^64. *)
Theorem aggregate_order_independent (pt : Z -> Z) (cs cs' : list Contribution) w
    (Hfresh : totalInitialized (storage w) = false)
    (Hperm : cs ≡ₚ cs')
    (Hacc : all_accepted env cs w = true)
    (Hacc' : all_accepted env cs' w = true) :
  let final := storage (run env (map (contribute (T:=T)) cs) w) in
  let final' := storage (run env (map (contribute (T:=T)) cs') w) in
  raised pt final = wrap64 (total (amounts pt cs)) /\
  raised pt final' = wrap64 (total (amounts pt cs)) /\
  (cs <> [] ->
   FHE.decrypt pt (totalRaisedEnc final') = wrap64 (total (amounts pt cs))) /\
  (total (amounts pt cs) < 2 ^ 64 -> raised pt final' = total (amounts pt cs)).
Proof.
  intros final final'.
  assert (H0 : raised pt (storage w) = 0) by (unfold raised; rewrite Hfresh; reflexivity).
  assert (Hsum : total (amounts pt cs') = total (amounts pt cs)).
  { symmetry. apply total_Permutation. unfold amounts. apply Permutation_map, Hperm. }
  assert (H1 : raised pt final = wrap64 (total (amounts pt cs))).
  { unfold final. rewrite (raised_all_accepted pt cs w Hacc), H0. reflexivity. }
  assert (H2 : raised pt final' = wrap64 (total (amounts pt cs))).
  { unfold final'. rewrite (raised_all_accepted pt cs' w Hacc'), H0, Hsum. reflexivity. }
  repeat split; try assumption.
  - intros Hne. rewrite <- H2. unfold raised.
    replace (totalInitialized final') with true; [reflexivity|].
    destruct cs' as [|c cs'']; [apply Permutation_nil_r in Hperm; contradiction|].
    unfold final'. rewrite map_cons, run_cons.
    change (all_accepted env (c :: cs'') w) with
      (is_accepted_contribution env (contribute c) w
       && all_accepted env cs'' (act env (contribute c) w)) in Hacc'.
    apply andb_prop in Hacc' as [Hc _].
    assert (Hi : totalInitialized (storage (act env (contribute c) w)) = true).
    { rewrite init_step, Hc. apply orb_true_r. }
    revert Hi. generalize (act env (contribute c) w). clear.
    induction cs'' as [|c' cs'' IH]; intros w1 Hi; [simpl; congruence|].
    rewrite map_cons, run_cons. apply IH. rewrite init_step, Hi. reflexivity.
  - intros Hlt. rewrite H2. apply wrap64_small. split; [|exact Hlt].
    clear. induction cs as [|c cs IH]; simpl; [lia|].
    pose proof (decrypt_range pt (FHE.ext64 (c_handle c))) as Hr. simpl in Hr. lia.
Qed.

(** ** Rejected contributions *)

(** C3. A contribution whose stated amount is below [minContribution]
    or above [maxContribution], or whose [transferFrom] reports failure,
    by returning [false] or by reverting, aborts, and at the point of the
    abort the storage (aggregate, flag, records, counter), the
    permissions and the events are as they were.  When the amount is out
    of bounds the abort comes before the token is called: the whole
    world, the log of transfer calls included, is untouched.  In an
    active campaign the errors are those of the [require] statements, or
    the token's own revert, and in every case the transaction commits
    nothing. *)
Theorem rejected_contribution_mutates_nothing sender amount6 encHandle inputProof w
    (Hbad : amount6 < minContribution (storage w) \/
            maxContribution (storage w) < amount6 \/
            (exists t', transferFrom (self env) sender (treasury (storage w))
                          amount6 (token w) = Some (false, t')) \/
            transferFrom (self env) sender (treasury (storage w)) amount6 (token w)
              = None) :
  exists e w_abort,
    contributeUSDC env sender amount6 encHandle inputProof w = Abort e w_abort /\
    storage w_abort = storage w /\
    acl w_abort = acl w /\
    events w_abort = events w /\
    (amount6 < minContribution (storage w) \/ maxContribution (storage w) < amount6 ->
     w_abort = w /\ transfers w_abort = transfers w /\ token w_abort = token w) /\
    (block_timestamp w < deadline (storage w) ->
     campaignFinalized (storage w) = false ->
     (amount6 < minContribution (storage w) \/ maxContribution (storage w) < amount6 ->
      e = RequireFailed "Amount cannot be zero" \/
      e = RequireFailed "Amount outside bounds") /\
     (0 < amount6 ->
      minContribution (storage w) <= amount6 <= maxContribution (storage w) ->
      ((exists t', transferFrom (self env) sender (treasury (storage w))
                     amount6 (token w) = Some (false, t')) ->
       e = RequireFailed "USDC transfer failed") /\
      (transferFrom (self env) sender (treasury (storage w)) amount6 (token w) = None ->
       e = ExternalFailure))) /\
    exec env sender (call_contributeUSDC amount6 encHandle inputProof) w = (w, Some e).
Proof.
  unfold exec. simpl dispatch. rewrite contributeUSDC_cases.
  destruct (deadline (storage w) <=? block_timestamp w) eqn:Hd.
  { exists CampaignExpired, w. repeat split; try reflexivity; intros; lia. }
  destruct (campaignFinalized (storage w)) eqn:Hf.
  { exists CampaignAlreadyFinalized, w. repeat split; try reflexivity; intros; congruence. }
  destruct (0 <? amount6) eqn:Ha; simpl.
  2:{ exists (RequireFailed "Amount cannot be zero"), w.
      repeat split; try reflexivity; intros; try lia. left. reflexivity. }
  destruct ((minContribution (storage w) <=? amount6)
            && (amount6 <=? maxContribution (storage w))) eqn:Hb; simpl.
  2:{ exists (RequireFailed "Amount outside bounds"), w.
      apply andb_false_iff in Hb.
      repeat split; try reflexivity; intros; try (destruct Hb as [Hb|Hb]; lia).
      right. reflexivity. }
  apply andb_prop in Hb as [Hlo Hhi].
  destruct Hbad as [Hlt|[Hgt|[[t' Ht]|Ht]]]; [lia|lia| |]; rewrite Ht.
  - exists (RequireFailed "USDC transfer failed"), (paid sender amount6 t' w).
    repeat split; try reflexivity; intros; try lia. discriminate.
  - exists ExternalFailure,
      (with_transfer (sender, treasury (storage w), amount6) w).
    repeat split; try reflexivity; intros; try lia.
    destruct H3 as [t' H3]. discriminate.
Qed.

(** ** The lifecycle *)

Lemma recomputed_timestamp sender w :
  block_timestamp (recomputed env sender w) = block_timestamp w.
Proof. rewrite recomputed_eq. reflexivity. Qed.

Lemma credited_timestamp sender e w :
  block_timestamp (credited env sender e w) = block_timestamp w.
Proof. rewrite credited_eq. reflexivity. Qed.

Lemma granted_timestamp w : block_timestamp (granted env w) = block_timestamp w.
Proof. rewrite granted_eq. reflexivity. Qed.

Lemma lifecycle_ok_step w w' : Committed env w w' -> lifecycle_ok w -> lifecycle_ok w'.
Proof.
  unfold lifecycle_ok.
  intros [ |sender a h p t' Hadm Ht|sender|Hd Hf|sender g Ho Hd Hf Hg
          |sender d Ho Hf Hd Hm Hs| |n Hn|t] Hok.
  - exact Hok.
  - rewrite credited_storage, credited_timestamp. simpl. exact Hok.
  - rewrite recomputed_storage, recomputed_timestamp. simpl. exact Hok.
  - simpl. intros _. exact Hd.
  - simpl. rewrite recomputed_storage, recomputed_timestamp. simpl. exact Hok.
  - simpl. congruence.
  - rewrite granted_storage, granted_timestamp. exact Hok.
  - simpl. intros H. specialize (Hok H). lia.
  - simpl. exact Hok.
Qed.

Lemma lifecycle_ok_run l : forall w, lifecycle_ok w -> lifecycle_ok (run env l w).
Proof.
  induction l as [|a l IH]; intros w Hok; [exact Hok|].
  rewrite run_cons. apply IH. eapply lifecycle_ok_step; [apply act_committed|exact Hok].
Qed.

Lemma finalized_stays w w' :
  Committed env w w' ->
  campaignFinalized (storage w) = true -> campaignFinalized (storage w') = true.
Proof.
  intros [ |sender a h p t' Hadm Ht|sender|Hd Hf|sender g Ho Hd Hf Hg
          |sender d Ho Hf Hd Hm Hs| |n Hn|t] H;
    rewrite ?credited_storage, ?recomputed_storage, ?granted_storage; simpl;
    rewrite ?recomputed_storage; simpl; try assumption; reflexivity.
Qed.

Lemma finalized_by_finalize a w :
  campaignFinalized (storage w) = false ->
  campaignFinalized (storage (act env a w)) = true ->
  (exists sender, a = tx sender call_finalizeCampaign) /\
  deadline (storage w) <= block_timestamp w.
Proof.
  intros Hf. destruct a as [sender c|n|t]; simpl; [|congruence..].
  unfold exec. destruct c as [a h p| | |g|d|];
    [simpl dispatch| |simpl dispatch..].
  - destruct (contributeUSDC env sender a h p w) as [u w'|e w'] eqn:Hc;
      simpl; [|congruence].
    apply contributeUSDC_Done_inv in Hc as [_ [t' [_ ->]]].
    rewrite credited_storage. simpl. congruence.
  - rewrite checkGoalReached_Done. simpl. rewrite recomputed_storage. simpl. congruence.
  - rewrite finalizeCampaign_cases, Hf.
    destruct (deadline (storage w) <=? block_timestamp w) eqn:Hd; simpl; [|congruence].
    intros _. split; [eauto|lia].
  - rewrite updateGoal_cases, Hf.
    repeat match goal with
           | |- context [if ?b then _ else _] => destruct b
           end; simpl; rewrite ?recomputed_storage; simpl; congruence.
  - rewrite extendDeadline_cases, Hf.
    repeat match goal with
           | |- context [if ?b then _ else _] => destruct b
           end; simpl; congruence.
  - rewrite grantPublicDecrypt_Done. simpl. rewrite granted_storage. congruence.
Qed.

(** C4, where the code departs from it.  In a state that satisfies the
    lifecycle invariant (every state a run reaches from a campaign that
    is not finalized does): at or after the deadline a contribution and
    a goal update by the owner fail with [CampaignExpired] (a goal update
    by anyone else with [NotOwner], the owner being checked first);
    [finalizeCampaign] before the deadline fails, and so does a second
    [finalizeCampaign]; the flag [campaignFinalized] is set only by a
    [finalizeCampaign] at or after the deadline and is never cleared.
    So far the claim.  But after [finalizeCampaign] the deadline has
    passed, so the first test of [campaignActive] fires: a contribution
    and the owner's goal update fail with [CampaignExpired], and the
    second test, which would report [CampaignAlreadyFinalized], is never
    reached: no contribution fails with that error. *)
Theorem lifecycle_gating sender amount6 encHandle inputProof newGoal w
    (Hok : lifecycle_ok w) :
  (deadline (storage w) <= block_timestamp w ->
   contributeUSDC env sender amount6 encHandle inputProof w = Abort CampaignExpired w /\
   updateGoal env (owner (storage w)) newGoal w = Abort CampaignExpired w /\
   (sender <> owner (storage w) ->
    updateGoal env sender newGoal w = Abort NotOwner w)) /\
  (campaignFinalized (storage w) = true ->
   contributeUSDC env sender amount6 encHandle inputProof w = Abort CampaignExpired w /\
   updateGoal env (owner (storage w)) newGoal w = Abort CampaignExpired w /\
   finalizeCampaign w = Abort (RequireFailed "Campaign already finalized") w) /\
  (forall e w_abort,
   contributeUSDC env sender amount6 encHandle inputProof w = Abort e w_abort ->
   e <> CampaignAlreadyFinalized) /\
  (block_timestamp w < deadline (storage w) ->
   finalizeCampaign w = Abort (RequireFailed "Campaign still active") w) /\
  (forall l, lifecycle_ok (run env l w)) /\
  (forall a,
   campaignFinalized (storage w) = true ->
   campaignFinalized (storage (act env a w)) = true) /\
  (forall a,
   campaignFinalized (storage w) = false ->
   campaignFinalized (storage (act env a w)) = true ->
   (exists caller, a = tx caller call_finalizeCampaign) /\
   deadline (storage w) <= block_timestamp w).
Proof.
  assert (Hexp : deadline (storage w) <= block_timestamp w ->
    contributeUSDC env sender amount6 encHandle inputProof w = Abort CampaignExpired w /\
    updateGoal env (owner (storage w)) newGoal w = Abort CampaignExpired w /\
    (sender <> owner (storage w) ->
     updateGoal env sender newGoal w = Abort NotOwner w)).
  { intros Hd. apply Z.leb_le in Hd.
    rewrite contributeUSDC_cases, !updateGoal_cases, Hd.
    rewrite bool_decide_eq_true_2 by reflexivity. simpl.
    repeat split. intros Hne. rewrite bool_decide_eq_false_2 by exact Hne. reflexivity. }
  repeat split.
  - apply Hexp; assumption.
  - apply Hexp; assumption.
  - apply Hexp; assumption.
  - apply Hexp, Hok; assumption.
  - apply Hexp, Hok; assumption.
  - rewrite finalizeCampaign_cases.
    replace (deadline (storage w) <=? block_timestamp w) with true
      by (symmetry; apply Z.leb_le, Hok; assumption).
    simpl. rewrite H. reflexivity.
  - intros e w_abort. rewrite contributeUSDC_cases.
    destruct (deadline (storage w) <=? block_timestamp w) eqn:Hd; [congruence|].
    destruct (campaignFinalized (storage w)) eqn:Hf.
    { specialize (Hok Hf). apply Z.leb_gt in Hd. lia. }
    repeat match goal with
           | |- context [if ?b then _ else _] => destruct b
           | |- context [match ?o with Some _ => _ | None => _ end] => destruct o as [[[|] ?]|]
           end; simpl; congruence.
  - intros Hlt. rewrite finalizeCampaign_cases.
    replace (deadline (storage w) <=? block_timestamp w) with false
      by (symmetry; apply Z.leb_gt; lia).
    reflexivity.
  - intros l. apply lifecycle_ok_run, Hok.
  - intros a. apply finalized_stays, act_committed.
  - eapply finalized_by_finalize; eassumption.
  - eapply finalized_by_finalize; eassumption.
Qed.

(** ** Decryption permissions *)

Lemma credited_acl sender e w :
  acl (credited env sender e w) =
  let s := storage w in
  let c := FHE.ge (total_after e s) (FHE.asEuint64 (fundingGoal s)) in
  (hb c, oracleAddress env) :: (hb c, sender) :: (hb c, owner s) :: (hb c, self env)
    :: (h64 (record_after sender e s), sender)
    :: (h64 (total_after e s), oracleAddress env)
    :: (h64 (total_after e s), owner s)
    :: (h64 (total_after e s), self env) :: acl w.
Proof. rewrite credited_eq. reflexivity. Qed.

Lemma credited_events sender e w :
  events (credited env sender e w) =
  events w ++ [Contributed sender (negb (hasContributed (storage w) sender))
                 (block_timestamp w)].
Proof. rewrite credited_eq. reflexivity. Qed.

Lemma contributionOf_credited sender e w :
  contributionOf (storage (credited env sender e w)) sender =
  record_after sender e (storage w).
Proof.
  rewrite credited_storage. unfold contributionOf. simpl.
  rewrite lookup_insert_eq. reflexivity.
Qed.

Lemma hasContributed_credited sender e w :
  hasContributed (storage (credited env sender e w)) sender = true.
Proof.
  rewrite credited_storage. unfold hasContributed. simpl.
  destruct (default false (hasContributedMap (storage w) !! sender)) eqn:Hh.
  - exact Hh.
  - rewrite lookup_insert_eq. reflexivity.
Qed.

Lemma isAllowed_head h who l : FHE.isAllowed h who ((h, who) :: l) = true.
Proof. apply bool_decide_eq_true. left. Qed.

Lemma isAllowed_tail h who g l :
  FHE.isAllowed h who l = true -> FHE.isAllowed h who (g :: l) = true.
Proof.
  unfold FHE.isAllowed. rewrite !bool_decide_eq_true. intros H. right. exact H.
Qed.

(** C5, where the code departs from it.  The first accepted contribution
    of a campaign stores one and the same handle as the aggregate and as
    the contributor's record, and the grants made on the aggregate land
    on the record: the oracle, the owner and the contract may decrypt
    what the first contributor gave. *)
Theorem first_contribution_is_readable_by_oracle sender amount6 encHandle inputProof w u w'
    (Hfresh : totalInitialized (storage w) = false)
    (Hnew : hasContributed (storage w) sender = false)
    (Haccepted : contributeUSDC env sender amount6 encHandle inputProof w = Done u w') :
  contributionOf (storage w') sender = FHE.ext64 encHandle /\
  totalRaisedEnc (storage w') = contributionOf (storage w') sender /\
  FHE.isAllowed (h64 (contributionOf (storage w') sender)) (oracleAddress env) (acl w')
    = true /\
  FHE.isAllowed (h64 (contributionOf (storage w') sender)) (owner (storage w')) (acl w')
    = true /\
  FHE.isAllowed (h64 (contributionOf (storage w') sender)) (self env) (acl w') = true.
Proof.
  apply contributeUSDC_Done_inv in Haccepted as [_ [t' [_ ->]]].
  rewrite contributionOf_credited, credited_acl, credited_storage. simpl.
  unfold record_after, total_after. simpl. rewrite Hfresh, Hnew.
  repeat split; repeat (first [apply isAllowed_head | apply isAllowed_tail]).
Qed.

(** C6, as the code has it.  After an accepted contribution the
    goal-status value carries grants for the contract, the owner, the
    sender and the oracle, and the aggregate total carries grants for the
    contract, the owner and the oracle. *)
Theorem grants_after_contribution sender amount6 encHandle inputProof w u w'
    (Haccepted : contributeUSDC env sender amount6 encHandle inputProof w = Done u w') :
  let status := hb (lastGoalReachedCache (storage w')) in
  let aggregate := h64 (totalRaisedEnc (storage w')) in
  (FHE.isAllowed status (self env) (acl w') = true /\
   FHE.isAllowed status (owner (storage w')) (acl w') = true /\
   FHE.isAllowed status sender (acl w') = true /\
   FHE.isAllowed status (oracleAddress env) (acl w') = true) /\
  (FHE.isAllowed aggregate (self env) (acl w') = true /\
   FHE.isAllowed aggregate (owner (storage w')) (acl w') = true /\
   FHE.isAllowed aggregate (oracleAddress env) (acl w') = true).
Proof.
  apply contributeUSDC_Done_inv in Haccepted as [_ [t' [_ ->]]].
  rewrite credited_acl, credited_storage. simpl.
  repeat split; repeat (first [apply isAllowed_head | apply isAllowed_tail]).
Qed.

(** ** Contributors *)

(** C7, as the code has it.  An accepted contribution from an identity
    without a record creates the record with the contributed amount,
    marks the identity, is reported as first-time and adds 1 to the
    counter modulo 2^64 (exactly 1 unless the counter stands at
    2^64 - 1); one from an identity with a record adds the amount
    homomorphically to the record, is reported as a repeat and leaves the
    counter alone. *)
Theorem contributor_count sender amount6 encHandle inputProof w u w'
    (Haccepted : contributeUSDC env sender amount6 encHandle inputProof w = Done u w') :
  (hasContributed (storage w) sender = false ->
   contributorCount (storage w') = wrap64 (contributorCount (storage w) + 1) /\
   (0 <= contributorCount (storage w) < 2 ^ 64 - 1 ->
    contributorCount (storage w') = contributorCount (storage w) + 1) /\
   contributionOf (storage w') sender = FHE.ext64 encHandle /\
   events w' = events w ++ [Contributed sender true (block_timestamp w)]) /\
  (hasContributed (storage w) sender = true ->
   contributorCount (storage w') = contributorCount (storage w) /\
   contributionOf (storage w') sender =
     FHE.add (contributionOf (storage w) sender) (FHE.ext64 encHandle) /\
   events w' = events w ++ [Contributed sender false (block_timestamp w)]) /\
  hasContributed (storage w') sender = true.
Proof.
  apply contributeUSDC_Done_inv in Haccepted as [_ [t' [_ ->]]].
  rewrite contributionOf_credited, hasContributed_credited, credited_events,
    credited_storage.
  simpl. unfold count_after, record_after. simpl.
  repeat split; intros; rewrite ?H; try reflexivity.
  apply wrap64_small. lia.
Qed.

(** ** Well-formed storage *)

Lemma wrap64_range z : is_uint64 (wrap64 z).
Proof. unfold is_uint64, wrap64. apply Z.mod_pos_bound. lia. Qed.

Lemma constructor_well_formed sender now goal days lo hi token_address treasury_address s :
  is_uint64 goal -> is_uint64 lo -> is_uint64 hi ->
  constructor sender now goal days lo hi token_address treasury_address = inr s ->
  well_formed s /\
  owner s = sender /\
  totalInitialized s = false /\
  campaignFinalized s = false /\
  cache_in_sync s.
Proof.
  unfold constructor, is_uint64. intros Hg Hlo Hhi.
  destruct (goal =? 0) eqn:Hg0; [discriminate|].
  destruct (days =? 0); [discriminate|].
  destruct ((lo =? 0) || (hi <? lo)) eqn:Hb; [discriminate|].
  destruct (negb (negb (token_address =? 0) && negb (treasury_address =? 0)));
    [discriminate|].
  destruct (negb (days * one_day <? 2 ^ 64)); [discriminate|].
  destruct (negb (now + days * one_day <? 2 ^ 256)); [discriminate|].
  intros H. inversion H; subst s; clear H.
  apply orb_false_iff in Hb as [Hlo0 Hhl].
  unfold well_formed, cache_in_sync. simpl.
  split; [repeat split; try lia; apply wrap64_range|].
  split; [reflexivity|]. split; [reflexivity|]. split; [reflexivity|].
  right. split; reflexivity.
Qed.




(** ** Goal evaluation *)

Lemma decryptb_goal_status pt s :
  0 < fundingGoal s < 2 ^ 64 ->
  FHE.decryptb pt (goal_status s) = (fundingGoal s <=? raised pt s).
Proof.
  intros Hg. unfold goal_status, raised.
  destruct (totalInitialized s); simpl.
  - rewrite decrypt_operand, wrap64_small by lia. reflexivity.
  - symmetry. apply Z.leb_gt. lia.
Qed.

Lemma goal_status_set_cache c s :
  goal_status (set_lastGoalReachedCache c s) = goal_status s.
Proof. reflexivity. Qed.





(** ** Finalization and extension *)

Lemma finalizeCampaign_event w u w' :
  finalizeCampaign w = Done u w' ->
  events w' =
  events w ++ [CampaignEnded (totalInitialized (storage w)) (block_timestamp w)].
Proof.
  rewrite finalizeCampaign_cases.
  destruct (negb (deadline (storage w) <=? block_timestamp w)); [discriminate|].
  destruct (campaignFinalized (storage w)); [discriminate|].
  intros H. inversion H. reflexivity.
Qed.

(** C10, as the code has it.  In every state that is not finalized,
    expired or not, the owner's call of [extendDeadline] with a positive
    number of days succeeds as long as the new deadline fits in 64 bits,
    and moves the deadline forward by that many days.  If the new
    deadline is after the current time the campaign is active again:
    [isActive] answers [true], the guard [campaignActive] passes, and a
    contribution within bounds whose transfer and proof are good is
    accepted. *)
Theorem deadline_extension_revives days w
    (Hopen : campaignFinalized (storage w) = false)
    (Hdays : 0 < days)
    (Hdeadline : 0 <= deadline (storage w))
    (Hfits : deadline (storage w) + days * one_day < 2 ^ 64) :
  let deadline' := deadline (storage w) + days * one_day in
  let w' := with_event (DeadlineExtended (deadline (storage w)) deadline')
              (with_storage (set_deadline deadline') w) in
  extendDeadline (owner (storage w)) days w = Done tt w' /\
  exec env (owner (storage w)) (call_extendDeadline days) w = (w', None) /\
  deadline (storage w') = deadline' /\
  deadline (storage w) < deadline (storage w') /\
  (block_timestamp w < deadline' ->
   isActive w' = Done true w' /\
   campaignActive w' = Done tt w' /\
   forall sender amount6 encHandle inputProof t',
     0 < amount6 ->
     minContribution (storage w) <= amount6 <= maxContribution (storage w) ->
     verifyInput env (self env) sender encHandle inputProof = true ->
     transferFrom (self env) sender (treasury (storage w)) amount6 (token w)
       = Some (true, t') ->
     accepted env sender (call_contributeUSDC amount6 encHandle inputProof) w' = true).
Proof.
  intros deadline' w'.
  assert (Hrun : extendDeadline (owner (storage w)) days w = Done tt w').
  { rewrite extendDeadline_cases, Hopen.
    rewrite bool_decide_eq_true_2 by reflexivity. simpl.
    replace (days =? 0) with false by (symmetry; apply Z.eqb_neq; lia).
    replace (days * one_day <? 2 ^ 64) with true
      by (symmetry; apply Z.ltb_lt; unfold one_day in *; lia).
    replace (deadline (storage w) + days * one_day <? 2 ^ 64) with true
      by (symmetry; apply Z.ltb_lt; lia).
    reflexivity. }
  split; [exact Hrun|].
  split; [unfold exec; simpl dispatch; rewrite Hrun; reflexivity|].
  split; [reflexivity|].
  split; [simpl; unfold deadline', one_day; lia|].
  intros Hnow.
  assert (Hlt : (block_timestamp w <? deadline') = true) by (apply Z.ltb_lt; lia).
  assert (Hle : (deadline' <=? block_timestamp w) = false) by (apply Z.leb_gt; lia).
  split; [|split].
  - unfold isActive, bind, timestamp, sload, ret, w'. simpl.
    rewrite Hlt, Hopen. reflexivity.
  - unfold campaignActive, bind, timestamp, sload, revert_if, ret, w'. simpl.
    rewrite Hle. simpl. rewrite Hopen. reflexivity.
  - intros sender amount6 encHandle inputProof t' Ha Hb Hv Ht.
    apply accepted_contribution_iff. split; [|exists t'; exact Ht].
    unfold admissible. simpl. repeat split; try assumption; lia.
Qed.

End Properties.

(** * Properties of the remaining functions *)

Section Coverage.

Context {T : Type} `{Token : IERC20 T}.
Variable env : Env.

Local Abbreviation World := (@World T).
Implicit Types w : World.

Lemma accepted_false sender c w e w1 :
  dispatch env sender c w = Abort e w1 -> accepted env sender c w = false.
Proof. unfold accepted, exec. intros ->. reflexivity. Qed.

(** Every action has one of the effects of [Effect]. *)
Lemma act_effect a w : Effect env w a (act env a w).
Proof.
  destruct a as [sender c|n|t]; simpl; [|apply effect_tick|apply effect_token].
  destruct c as [a h p| | |g|d|].
  - destruct (accepted env sender (call_contributeUSDC a h p) w) eqn:Hacc.
    + apply accepted_contribution_iff in Hacc as [Hadm [t' Ht]].
      unfold exec. simpl dispatch.
      rewrite (contributeUSDC_accept _ _ _ _ _ _ _ Hadm Ht). simpl.
      apply effect_contribution; assumption.
    + rewrite (exec_rejected _ _ _ _ Hacc). simpl.
      apply effect_rejected, Hacc.
  - unfold exec. rewrite checkGoalReached_Done. apply effect_check.
  - destruct (dispatch env sender call_finalizeCampaign w) as [u w1|e w1] eqn:Hrun.
    + unfold exec. rewrite Hrun. simpl. simpl dispatch in Hrun.
      rewrite finalizeCampaign_cases in Hrun.
      destruct (deadline (storage w) <=? block_timestamp w) eqn:Hd; [|discriminate].
      destruct (campaignFinalized (storage w)) eqn:Hf; [discriminate|].
      inversion Hrun. apply effect_finalize; [lia|exact Hf].
    + unfold exec. rewrite Hrun. simpl.
      apply effect_rejected. eapply accepted_false, Hrun.
  - destruct (dispatch env sender (call_updateGoal g) w) as [u w1|e w1] eqn:Hrun.
    + unfold exec. rewrite Hrun. simpl. simpl dispatch in Hrun.
      rewrite updateGoal_cases in Hrun.
      destruct (bool_decide (sender = owner (storage w))) eqn:Ho; [|discriminate].
      destruct (deadline (storage w) <=? block_timestamp w) eqn:Hd; [discriminate|].
      destruct (campaignFinalized (storage w)) eqn:Hf; [discriminate|].
      destruct (g =? 0) eqn:Hg; [discriminate|].
      apply bool_decide_eq_true in Ho. subst sender.
      inversion Hrun. apply effect_goal; [lia|exact Hf|lia].
    + unfold exec. rewrite Hrun. simpl.
      apply effect_rejected. eapply accepted_false, Hrun.
  - destruct (dispatch env sender (call_extendDeadline d) w) as [u w1|e w1] eqn:Hrun.
    + unfold exec. rewrite Hrun. simpl. simpl dispatch in Hrun.
      rewrite extendDeadline_cases in Hrun.
      destruct (bool_decide (sender = owner (storage w))) eqn:Ho; [|discriminate].
      destruct (campaignFinalized (storage w)) eqn:Hf; [discriminate|].
      destruct (d =? 0) eqn:Hz; [discriminate|].
      destruct (d * one_day <? 2 ^ 64) eqn:Hm; [|discriminate].
      destruct (deadline (storage w) + d * one_day <? 2 ^ 64) eqn:Hs; [|discriminate].
      apply bool_decide_eq_true in Ho. subst sender.
      inversion Hrun. apply effect_extension; [exact Hf|lia..].
    + unfold exec. rewrite Hrun. simpl.
      apply effect_rejected. eapply accepted_false, Hrun.
  - unfold exec. simpl dispatch. rewrite grantPublicDecrypt_Done. apply effect_grant.
Qed.

(** An invariant of every effect is an invariant of every run. *)
Lemma run_invariant (P : World -> Prop) :
  (forall a w, P w -> P (act env a w)) ->
  forall l w, P w -> P (run env l w).
Proof.
  intros Hstep l. induction l as [|a l IH]; intros w Hw; [exact Hw|].
  rewrite run_cons. apply IH, Hstep, Hw.
Qed.

(** ** Deployment *)

(** X1. The constructor checks its arguments in the order goal,
    duration, contribution limits, addresses, and reports the first
    violation; when it succeeds the limits satisfy 0 < min <= max, the
    goal is positive, the deployer owns the campaign, nothing has been
    raised or finalized, and the deadline is the deployment time plus
    the duration in seconds, truncated to 64 bits: later than the
    deployment time whenever no truncation takes place. *)
Theorem constructor_validates sender now goal days lo hi token_address treasury_address
    (Hgoal : is_uint64 goal) (Hdays : is_uint64 days)
    (Hlo : is_uint64 lo) (Hhi : is_uint64 hi) (Hnow : 0 <= now) :
  let result := constructor sender now goal days lo hi token_address treasury_address in
  (goal = 0 -> result = inl InvalidGoal) /\
  (goal <> 0 -> days = 0 -> result = inl InvalidDeadline) /\
  (goal <> 0 -> days <> 0 -> lo = 0 \/ hi < lo ->
   result = inl InvalidContributionLimits) /\
  (goal <> 0 -> days <> 0 -> 0 < lo <= hi ->
   token_address = 0 \/ treasury_address = 0 ->
   result = inl (RequireFailed "Invalid addresses")) /\
  (forall s, result = inr s ->
   (goal <> 0 /\ days <> 0 /\ 0 < lo <= hi /\
    token_address <> 0 /\ treasury_address <> 0) /\
   (owner s = sender /\ usdc s = token_address /\ treasury s = treasury_address /\
    fundingGoal s = goal /\ minContribution s = lo /\ maxContribution s = hi) /\
   (totalInitialized s = false /\ campaignFinalized s = false /\
    contributorCount s = 0 /\ hasContributedMap s = ∅ /\ contributionAmounts s = ∅) /\
   deadline s = wrap64 (now + days * one_day) /\
   (now + days * one_day < 2 ^ 64 -> now < deadline s) /\
   well_formed s).
Proof.
  intros result. unfold result, constructor, is_uint64 in *.
  split; [intros ->; reflexivity|].
  split.
  { intros Hg ->. replace (goal =? 0) with false by (symmetry; apply Z.eqb_neq; lia).
    reflexivity. }
  split.
  { intros Hg Hd Hb.
    replace (goal =? 0) with false by (symmetry; apply Z.eqb_neq; lia).
    replace (days =? 0) with false by (symmetry; apply Z.eqb_neq; lia).
    replace ((lo =? 0) || (hi <? lo)) with true; [reflexivity|].
    symmetry. apply orb_true_iff. destruct Hb as [-> | Hb]; [left; reflexivity|].
    right. apply Z.ltb_lt. exact Hb. }
  split.
  { intros Hg Hd Hb Ha.
    replace (goal =? 0) with false by (symmetry; apply Z.eqb_neq; lia).
    replace (days =? 0) with false by (symmetry; apply Z.eqb_neq; lia).
    replace (lo =? 0) with false by (symmetry; apply Z.eqb_neq; lia).
    replace (hi <? lo) with false by (symmetry; apply Z.ltb_ge; lia).
    simpl.
    replace (negb (token_address =? 0) && negb (treasury_address =? 0)) with false;
      [reflexivity|].
    symmetry. apply andb_false_iff.
    destruct Ha as [-> | ->]; [left|right]; reflexivity. }
  intros s.
  destruct (goal =? 0) eqn:Hg; [discriminate|].
  destruct (days =? 0) eqn:Hd; [discriminate|].
  destruct ((lo =? 0) || (hi <? lo)) eqn:Hb; [discriminate|].
  destruct (negb (token_address =? 0) && negb (treasury_address =? 0)) eqn:Ha;
    [|discriminate].
  simpl.
  destruct (days * one_day <? 2 ^ 64); [|discriminate].
  destruct (now + days * one_day <? 2 ^ 256); [|discriminate].
  simpl. intros H. inversion H; subst s; clear H. simpl.
  apply orb_false_iff in Hb as [Hlo0 Hhl].
  apply andb_prop in Ha as [Hu Ht].
  apply negb_true_iff in Hu, Ht.
  apply Z.eqb_neq in Hg, Hd, Hlo0, Hu, Ht. apply Z.ltb_ge in Hhl.
  pose proof (wrap64_range (now + days * one_day)) as Hr.
  split; [repeat split; (assumption || lia)|].
  split; [repeat split|].
  split; [repeat split|].
  split; [reflexivity|].
  split.
  - intros Hfit. rewrite wrap64_small by (unfold one_day in *; lia).
    unfold one_day. lia.
  - unfold well_formed, is_uint64 in *. simpl. repeat split; lia.
Qed.

(** ** The read surface *)

Lemma getTotalRaised_cases w :
  getTotalRaised w =
  if totalInitialized (storage w)
  then Done (totalRaisedEnc (storage w)) w
  else Abort NoContributions w.
Proof.
  unfold getTotalRaised, hasTotalInitialized, bind, sload, revert_if, revert, ret.
  destruct (totalInitialized (storage w)); reflexivity.
Qed.

Lemma getContributionAmount_cases contributor w :
  getContributionAmount contributor w =
  if hasContributed (storage w) contributor
  then Done (contributionOf (storage w) contributor) w
  else Abort (RequireFailed "Address has not contributed") w.
Proof.
  unfold getContributionAmount, bind, sload, require, revert, ret.
  destruct (hasContributed (storage w) contributor); reflexivity.
Qed.

Lemma getTimeRemaining_cases w :
  getTimeRemaining w =
  if deadline (storage w) <=? block_timestamp w
  then Done 0 w
  else Done (deadline (storage w) - wrap64 (block_timestamp w)) w.
Proof.
  unfold getTimeRemaining, bind, timestamp, sload, ret.
  destruct (deadline (storage w) <=? block_timestamp w); reflexivity.
Qed.

Lemma isActive_cases w :
  isActive w =
  Done ((block_timestamp w <? deadline (storage w))
        && negb (campaignFinalized (storage w))) w.
Proof. reflexivity. Qed.

(** X2. [getTimeRemaining] answers the seconds left to the deadline
    and 0 once it has passed, without underflow; in a state that
    satisfies the lifecycle invariant [isActive] answers [true] exactly
    when no [finalizeCampaign] has happened and time remains, and a
    contribution is accepted only while [isActive] answers [true]. *)
Theorem time_remaining_and_activity w
    (Hnow : 0 <= block_timestamp w)
    (Hdeadline : is_uint64 (deadline (storage w))) :
  getTimeRemaining w =
    Done (Z.max 0 (deadline (storage w) - block_timestamp w)) w /\
  (forall remaining active,
     getTimeRemaining w = Done remaining w ->
     isActive w = Done active w ->
     0 <= remaining /\
     (active = true <->
      0 < remaining /\ campaignFinalized (storage w) = false) /\
     (lifecycle_ok w -> campaignFinalized (storage w) = true -> remaining = 0) /\
     (forall sender amount6 encHandle inputProof,
        accepted env sender (call_contributeUSDC amount6 encHandle inputProof) w = true ->
        active = true)).
Proof.
  assert (Hrem : getTimeRemaining w =
                 Done (Z.max 0 (deadline (storage w) - block_timestamp w)) w).
  { rewrite getTimeRemaining_cases. unfold is_uint64 in Hdeadline.
    destruct (deadline (storage w) <=? block_timestamp w) eqn:Hd.
    - apply Z.leb_le in Hd. f_equal. lia.
    - apply Z.leb_gt in Hd. rewrite wrap64_small by lia. f_equal. lia. }
  split; [exact Hrem|].
  intros remaining active Hr Ha.
  rewrite Hrem in Hr. inversion Hr as [Hr']. clear Hr.
  rewrite isActive_cases in Ha. inversion Ha as [Ha']. clear Ha.
  split; [lia|]. split; [|split].
  - rewrite andb_true_iff, negb_true_iff, Z.ltb_lt. split; intros [H1 H2]; split;
      try assumption; lia.
  - intros Hok Hf. specialize (Hok Hf). lia.
  - intros sender amount6 encHandle inputProof Hacc.
    apply accepted_contribution_iff in Hacc as [(Hd & Hf & _) _].
    rewrite Hf. apply andb_true_iff. split; [apply Z.ltb_lt; exact Hd|reflexivity].
Qed.

(** ** The ledger along a run *)

Lemma effect_ledger w a w' :
  Effect env w a w' ->
  (exists sender amount6 encHandle inputProof t',
     a = tx sender (call_contributeUSDC amount6 encHandle inputProof) /\
     admissible env sender amount6 encHandle inputProof w /\
     is_accepted_contribution env a w = true /\
     w' = credited env sender (FHE.ext64 encHandle) (paid sender amount6 t' w)) \/
  (is_accepted_contribution env a w = false /\ same_ledger (storage w) (storage w')).
Proof.
  intros [sender c Hrej|sender a6 h p t' Hadm Ht|sender|sender Hd Hf|g Hd Hf Hg
         |d Hf Hd Hm Hs|sender|n|t].
  - right. split; [|repeat split].
    destruct c; simpl; try reflexivity. exact Hrej.
  - left. exists sender, a6, h, p, t'.
    split; [reflexivity|]. split; [exact Hadm|]. split; [|reflexivity].
    simpl. apply accepted_contribution_iff. split; [exact Hadm|eauto].
  - right. split; [reflexivity|]. rewrite recomputed_storage. repeat split.
  - right. split; [reflexivity|]. repeat split.
  - right. split; [reflexivity|]. simpl. rewrite recomputed_storage. repeat split.
  - right. split; [reflexivity|]. repeat split.
  - right. split; [reflexivity|]. rewrite granted_storage. repeat split.
  - right. split; [reflexivity|]. repeat split.
  - right. split; [reflexivity|]. repeat split.
Qed.

Lemma initialized_run l : forall w,
  totalInitialized (storage (run env l w)) =
  totalInitialized (storage w) || negb (accepted_contributions env l w =? 0)%nat.
Proof.
  induction l as [|a l IH]; intros w.
  - simpl. symmetry. apply orb_false_r.
  - rewrite run_cons, IH, init_step. simpl.
    destruct (totalInitialized (storage w)); simpl; [reflexivity|].
    destruct (is_accepted_contribution env a w); reflexivity.
Qed.

(** X3. On a campaign without contributions, along any run,
    [getTotalRaised] fails with [NoContributions] as long as no
    contribution has been accepted, and from the first accepted
    contribution on it returns the aggregate handle and changes nothing;
    [isInitialized] tells the two cases apart. *)
Theorem total_readable_after_first_contribution l w
    (Hfresh : totalInitialized (storage w) = false) :
  let w' := run env l w in
  (accepted_contributions env l w = 0%nat ->
   getTotalRaised w' = Abort NoContributions w' /\ isInitialized w' = Done false w') /\
  (accepted_contributions env l w <> 0%nat ->
   getTotalRaised w' = Done (totalRaisedEnc (storage w')) w' /\
   isInitialized w' = Done true w').
Proof.
  intros w'. unfold w'.
  rewrite getTotalRaised_cases. unfold isInitialized, sload.
  rewrite initialized_run, Hfresh. simpl.
  split; intros H.
  - rewrite H. split; reflexivity.
  - apply Nat.eqb_neq in H. rewrite H. split; reflexivity.
Qed.

Lemma hasContributed_credited_any sender e w who :
  hasContributed (storage (credited env sender e w)) who =
  hasContributed (storage w) who || bool_decide (sender = who).
Proof.
  destruct (decide (sender = who)) as [->|Hne].
  - rewrite hasContributed_credited, bool_decide_eq_true_2 by reflexivity.
    symmetry. apply orb_true_r.
  - rewrite bool_decide_eq_false_2, orb_false_r by exact Hne.
    rewrite credited_storage. unfold hasContributed at 1. simpl.
    destruct (hasContributed (storage w) sender); [reflexivity|].
    rewrite lookup_insert_ne by exact Hne. reflexivity.
Qed.

Lemma contributionOf_credited_other sender e w who :
  sender <> who ->
  contributionOf (storage (credited env sender e w)) who =
  contributionOf (storage w) who.
Proof.
  intros Hne. rewrite credited_storage. unfold contributionOf. simpl.
  rewrite lookup_insert_ne by exact Hne. reflexivity.
Qed.

Lemma record_range pt s who : 0 <= record pt s who < 2 ^ 64.
Proof.
  unfold record. destruct (hasContributed s who); [apply decrypt_range|lia].
Qed.

Lemma record_credited pt sender e w who :
  record pt (storage (credited env sender e w)) who =
  wrap64 (record pt (storage w) who
          + if bool_decide (sender = who) then FHE.decrypt pt e else 0).
Proof.
  unfold record at 1. rewrite hasContributed_credited_any.
  destruct (decide (sender = who)) as [->|Hne].
  - rewrite bool_decide_eq_true_2, orb_true_r by reflexivity.
    rewrite contributionOf_credited. unfold record_after, record. simpl.
    destruct (hasContributed (storage w) who).
    + apply decrypt_add.
    + simpl. symmetry. apply wrap64_small, decrypt_range.
  - rewrite bool_decide_eq_false_2, orb_false_r by exact Hne.
    rewrite contributionOf_credited_other by exact Hne.
    rewrite Z.add_0_r. symmetry. apply wrap64_small, record_range.
Qed.

Lemma same_ledger_record pt s s' who :
  same_ledger s s' -> record pt s' who = record pt s who.
Proof.
  intros (_ & _ & Hh & Hc & _).
  unfold record, hasContributed, contributionOf. rewrite Hh, Hc. reflexivity.
Qed.

Lemma record_step pt who a w :
  record pt (storage (act env a w)) who =
  wrap64 (record pt (storage w) who + gift env pt who a w).
Proof.
  destruct (effect_ledger _ _ _ (act_effect a w))
    as [(sender & a6 & h & p & t' & -> & _ & Hacc & ->)|[Hrej Hsame]].
  - rewrite record_credited, paid_storage.
    unfold gift. rewrite Hacc. reflexivity.
  - rewrite (same_ledger_record pt _ _ who Hsame).
    replace (gift env pt who a w) with 0.
    + rewrite Z.add_0_r. symmetry. apply wrap64_small, record_range.
    + unfold gift. destruct a as [sender [a6 h p| | | | |]|n|t]; try reflexivity.
      rewrite Hrej. reflexivity.
Qed.

(** X4. The record of a contributor decrypts, after any run, to what
    it decrypted to before plus the encrypted amounts of that
    contributor's accepted contributions in the run, modulo 2^64; the
    contributions of others, and every other call, leave it alone. *)
Theorem record_is_sum_of_gifts (pt : Z -> Z) (who : address) l : forall w,
  record pt (storage (run env l w)) who =
  wrap64 (record pt (storage w) who + given env pt who l w).
Proof.
  induction l as [|a l IH]; intros w.
  - simpl. rewrite Z.add_0_r. symmetry. apply wrap64_small, record_range.
  - rewrite run_cons, IH, record_step, wrap64_add_l. simpl. f_equal. lia.
Qed.

Lemma hasContributed_step who a w :
  hasContributed (storage (act env a w)) who =
  hasContributed (storage w) who
  || (is_accepted_contribution env a w
      && match a with tx sender _ => bool_decide (sender = who) | _ => false end).
Proof.
  destruct (effect_ledger _ _ _ (act_effect a w))
    as [(sender & a6 & h & p & t' & -> & _ & Hacc & ->)|[Hrej Hsame]].
  - rewrite hasContributed_credited_any, paid_storage, Hacc. reflexivity.
  - rewrite Hrej, orb_false_r. destruct Hsame as (_ & _ & Hh & _).
    unfold hasContributed. rewrite Hh. reflexivity.
Qed.

(** X5. [getContributionAmount] fails for an address that has not
    contributed and returns the record of one that has.  An address
    becomes a contributor only by an accepted contribution it sent
    itself, and remains one through every later action, so the call
    keeps succeeding. *)
Theorem contributor_status_permanent (who : address) w :
  (hasContributed (storage w) who = false ->
   getContributionAmount who w =
     Abort (RequireFailed "Address has not contributed") w) /\
  (hasContributed (storage w) who = true ->
   forall l,
     hasContributed (storage (run env l w)) who = true /\
     getContributionAmount who (run env l w) =
       Done (contributionOf (storage (run env l w)) who) (run env l w)) /\
  (forall a,
     hasContributed (storage w) who = false ->
     hasContributed (storage (act env a w)) who = true ->
     sent_by who a /\ is_accepted_contribution env a w = true).
Proof.
  split; [|split].
  - intros H. rewrite getContributionAmount_cases, H. reflexivity.
  - intros H l.
    assert (Hl : hasContributed (storage (run env l w)) who = true).
    { revert w H. induction l as [|a l IH]; intros w H; [exact H|].
      rewrite run_cons. apply IH. rewrite hasContributed_step, H. reflexivity. }
    split; [exact Hl|]. rewrite getContributionAmount_cases, Hl. reflexivity.
  - intros a H. rewrite hasContributed_step, H. simpl.
    intros Ha. apply andb_prop in Ha as [Hacc Hs].
    split; [|exact Hacc].
    destruct a as [sender c|n|t]; try discriminate.
    simpl. apply bool_decide_eq_true in Hs. exact Hs.
Qed.

(** ** The counter and the conservation of the ledger *)

Lemma ledger_consistent_credited sender e w :
  ledger_consistent (storage w) ->
  ledger_consistent (storage (credited env sender e w)).
Proof.
  unfold ledger_consistent. intros (Hrec & Htrue & Hcount).
  rewrite credited_storage. simpl. unfold count_after, hasContributed.
  destruct (hasContributedMap (storage w) !! sender) as [b|] eqn:Hs; simpl.
  - rewrite (Htrue _ _ Hs). split; [|split; assumption].
    intros a Ha. rewrite lookup_insert_ne by congruence. apply Hrec, Ha.
  - split; [|split].
    + intros a Ha. destruct (decide (sender = a)) as [->|Hne].
      * rewrite lookup_insert_eq in Ha. discriminate.
      * rewrite lookup_insert_ne in Ha by exact Hne.
        rewrite lookup_insert_ne by exact Hne. apply Hrec, Ha.
    + intros a b. destruct (decide (sender = a)) as [->|Hne].
      * rewrite lookup_insert_eq. congruence.
      * rewrite lookup_insert_ne by exact Hne. apply Htrue.
    + rewrite map_size_insert_None by exact Hs.
      rewrite Hcount, wrap64_add_l. f_equal. lia.
Qed.

Lemma ledger_consistent_same s s' :
  same_ledger s s' -> ledger_consistent s -> ledger_consistent s'.
Proof.
  unfold ledger_consistent. intros (_ & _ & Hh & Hc & Hn). rewrite Hh, Hc, Hn. tauto.
Qed.

Lemma ledger_consistent_act a w :
  ledger_consistent (storage w) -> ledger_consistent (storage (act env a w)).
Proof.
  intros Hok.
  destruct (effect_ledger _ _ _ (act_effect a w))
    as [(sender & a6 & h & p & t' & -> & _ & Hacc & ->)|[Hrej Hsame]].
  - apply ledger_consistent_credited. exact Hok.
  - eapply ledger_consistent_same; eassumption.
Qed.

(** X6. In every run from a campaign whose mappings and counter
    agree (a newly deployed one, for instance) they still agree
    afterwards: the counter is the number of addresses for which
    [hasContributed] answers [true], modulo 2^64. *)
Theorem counter_counts_contributors l w
    (Hok : ledger_consistent (storage w)) :
  let s := storage (run env l w) in
  contributorCount s = wrap64 (Z.of_nat (size (dom (hasContributedMap s)))) /\
  (forall a, a ∈ dom (hasContributedMap s) <-> hasContributed s a = true) /\
  ledger_consistent s.
Proof.
  intros s.
  assert (Hs : ledger_consistent s).
  { unfold s.
    apply (run_invariant (fun w => ledger_consistent (storage w)));
      [intros; apply ledger_consistent_act; assumption|exact Hok]. }
  destruct Hs as (Hrec & Htrue & Hcount).
  split; [|split; [|repeat split; assumption]].
  - rewrite size_dom. exact Hcount.
  - intros a. rewrite elem_of_dom. unfold hasContributed.
    destruct (hasContributedMap s !! a) as [b|] eqn:Ha; simpl.
    + rewrite (Htrue _ _ Ha). split; [reflexivity|eauto].
    + split; [intros [b Hb]; discriminate|discriminate].
Qed.

Lemma records_sum_fresh pt (m : gmap Z euint64) i x :
  m !! i = None ->
  map_fold (fun (_ : Z) (e : euint64) (acc : Z) => acc + FHE.decrypt pt e) 0 (<[i:=x]> m)
  = map_fold (fun (_ : Z) (e : euint64) (acc : Z) => acc + FHE.decrypt pt e) 0 m
    + FHE.decrypt pt x.
Proof.
  intros Hi. rewrite map_fold_insert_L; [reflexivity| |exact Hi].
  intros. lia.
Qed.

Lemma records_sum_update pt (m : gmap Z euint64) i old x :
  m !! i = Some old ->
  map_fold (fun (_ : Z) (e : euint64) (acc : Z) => acc + FHE.decrypt pt e) 0 (<[i:=x]> m)
  = map_fold (fun (_ : Z) (e : euint64) (acc : Z) => acc + FHE.decrypt pt e) 0 m
    - FHE.decrypt pt old + FHE.decrypt pt x.
Proof.
  intros Hi.
  rewrite <- (insert_delete_eq m i x).
  rewrite records_sum_fresh by apply lookup_delete_eq.
  rewrite (map_fold_delete_L _ _ i old m); [lia| |exact Hi].
  intros. lia.
Qed.

Lemma records_sum_credited pt sender e w :
  ledger_consistent (storage w) ->
  wrap64 (records_sum pt (storage (credited env sender e w))) =
  wrap64 (records_sum pt (storage w) + FHE.decrypt pt e).
Proof.
  intros (Hrec & Htrue & _).
  rewrite credited_storage. unfold records_sum. simpl.
  unfold record_after, hasContributed, contributionOf.
  destruct (contributionAmounts (storage w) !! sender) as [old|] eqn:Hold.
  - rewrite (records_sum_update pt _ _ old) by exact Hold.
    destruct (hasContributedMap (storage w) !! sender) as [b|] eqn:Hs;
      [|rewrite (Hrec _ Hs) in Hold; discriminate].
    rewrite (Htrue _ _ Hs). simpl. rewrite !decrypt_operand.
    unfold wrap64. rewrite Zplus_mod_idemp_r. f_equal. lia.
  - rewrite records_sum_fresh by exact Hold.
    destruct (default false (hasContributedMap (storage w) !! sender));
      cbn -[FHE.add FHE.decrypt wrap64 map_fold]; [|reflexivity].
    rewrite decrypt_add. cbn [FHE.decrypt]. rewrite Z.add_0_l.
    rewrite (wrap64_small (FHE.decrypt pt e)) by apply decrypt_range. reflexivity.
Qed.

Lemma same_ledger_sums pt s s' :
  same_ledger s s' ->
  raised pt s' = raised pt s /\ records_sum pt s' = records_sum pt s.
Proof.
  intros (Ht & Hi & _ & Hc & _). unfold raised, records_sum.
  rewrite Ht, Hi, Hc. split; reflexivity.
Qed.

(** X7. Conservation: in every run from a campaign whose mappings
    agree and whose aggregate decrypts to the sum of the records modulo
    2^64 (a newly deployed one, with no records and nothing raised), the
    aggregate still decrypts to the sum of all the contributors' records
    modulo 2^64. *)
Theorem aggregate_is_sum_of_records (pt : Z -> Z) l w
    (Hok : ledger_consistent (storage w))
    (Hsum : raised pt (storage w) = wrap64 (records_sum pt (storage w))) :
  raised pt (storage (run env l w)) =
  wrap64 (records_sum pt (storage (run env l w))).
Proof.
  apply (run_invariant
           (fun w => ledger_consistent (storage w) /\
                     raised pt (storage w) = wrap64 (records_sum pt (storage w))));
    [|split; assumption].
  clear. intros a w [Hok Hsum].
  split; [apply ledger_consistent_act, Hok|].
  destruct (effect_ledger _ _ _ (act_effect a w))
    as [(sender & a6 & h & p & t' & -> & _ & Hacc & ->)|[Hrej Hsame]].
  - rewrite raised_credited, records_sum_credited, paid_storage by exact Hok.
    rewrite Hsum. apply wrap64_add_l.
  - destruct (same_ledger_sums pt _ _ Hsame) as [-> ->]. exact Hsum.
Qed.

(** ** Who may change the configuration *)

Lemma effect_config w a w' :
  Effect env w a w' ->
  (owner (storage w') = owner (storage w) /\
   usdc (storage w') = usdc (storage w) /\
   treasury (storage w') = treasury (storage w) /\
   minContribution (storage w') = minContribution (storage w) /\
   maxContribution (storage w') = maxContribution (storage w)) /\
  (fundingGoal (storage w') = fundingGoal (storage w) \/
   exists newGoal,
     a = tx (owner (storage w)) (call_updateGoal newGoal) /\
     fundingGoal (storage w') = newGoal /\ newGoal <> 0 /\
     block_timestamp w < deadline (storage w) /\
     campaignFinalized (storage w) = false) /\
  (deadline (storage w') = deadline (storage w) \/
   exists days,
     a = tx (owner (storage w)) (call_extendDeadline days) /\
     deadline (storage w') = deadline (storage w) + days * one_day /\
     days <> 0 /\ campaignFinalized (storage w) = false).
Proof.
  intros [sender c Hrej|sender a6 h p t' Hadm Ht|sender|sender Hd Hf|g Hd Hf Hg
         |d Hf Hd Hm Hs|sender|n|t];
    rewrite ?credited_storage, ?recomputed_storage, ?granted_storage; simpl;
    rewrite ?recomputed_storage; simpl.
  1-4, 7-9: split; [repeat split|split; left; reflexivity].
  - split; [repeat split|]. split; [right|left; reflexivity].
    exists g. repeat split; assumption.
  - split; [repeat split|]. split; [left; reflexivity|right].
    exists d. repeat split; assumption.
Qed.

(** X8. The owner, the token, the treasury and the contribution
    bounds never change.  The goal changes only by the owner's
    [updateGoal] on an active campaign, to a goal that is not zero, and
    the deadline only by the owner's [extendDeadline] on a campaign that
    is not finalized; whatever anybody else sends leaves both alone. *)
Theorem configuration_is_owner_only a w :
  let s := storage w in
  let s' := storage (act env a w) in
  (owner s' = owner s /\ usdc s' = usdc s /\ treasury s' = treasury s /\
   minContribution s' = minContribution s /\ maxContribution s' = maxContribution s) /\
  (~ sent_by (owner s) a -> fundingGoal s' = fundingGoal s /\ deadline s' = deadline s) /\
  (fundingGoal s' <> fundingGoal s ->
   a = tx (owner s) (call_updateGoal (fundingGoal s')) /\
   fundingGoal s' <> 0 /\
   block_timestamp w < deadline s /\ campaignFinalized s = false) /\
  (deadline s' <> deadline s ->
   exists days,
     a = tx (owner s) (call_extendDeadline days) /\
     deadline s' = deadline s + days * one_day /\
     days <> 0 /\ campaignFinalized s = false).
Proof.
  intros s s'. unfold s, s'.
  destruct (effect_config _ _ _ (act_effect a w)) as (Himm & Hgoal & Hdl).
  split; [exact Himm|]. split; [|split].
  - intros Hnot. split.
    + destruct Hgoal as [H|(g & -> & _)]; [exact H|]. exfalso. apply Hnot. reflexivity.
    + destruct Hdl as [H|(d & -> & _)]; [exact H|]. exfalso. apply Hnot. reflexivity.
  - intros Hne. destruct Hgoal as [H|(g & Ha & Hg & Hz & Hd & Hf)]; [contradiction|].
    rewrite Hg. repeat split; assumption.
  - intros Hne. destruct Hdl as [H|(d & Ha & Hd & Hz & Hf)]; [contradiction|].
    exists d. repeat split; assumption.
Qed.

Lemma deadline_step a w :
  well_typed a -> deadline (storage w) <= deadline (storage (act env a w)).
Proof.
  intros Hty.
  destruct (effect_config _ _ _ (act_effect a w)) as (_ & _ & [->|(d & -> & -> & Hz & _)]).
  - lia.
  - simpl in Hty. unfold is_uint64, one_day in *. lia.
Qed.

(** X9. Along a run of transactions whose arguments are unsigned
    64-bit numbers the deadline never decreases. *)
Theorem deadline_never_decreases l w
    (Htyped : Forall well_typed l) :
  deadline (storage w) <= deadline (storage (run env l w)).
Proof.
  revert w. induction Htyped as [|a l Ha _ IH]; intros w; [simpl; lia|].
  rewrite run_cons. specialize (IH (act env a w)).
  pose proof (deadline_step a w Ha). lia.
Qed.

(** ** After finalization *)

Lemma recomputed_transfers sender w :
  transfers (recomputed env sender w) = transfers w.
Proof. rewrite recomputed_eq. reflexivity. Qed.

Lemma credited_transfers sender e w :
  transfers (credited env sender e w) = transfers w.
Proof. rewrite credited_eq. reflexivity. Qed.

Lemma granted_transfers w : transfers (granted env w) = transfers w.
Proof. rewrite granted_eq. reflexivity. Qed.

Lemma same_ledger_trans s1 s2 s3 :
  same_ledger s1 s2 -> same_ledger s2 s3 -> same_ledger s1 s3.
Proof.
  unfold same_ledger. intros (A1 & A2 & A3 & A4 & A5) (B1 & B2 & B3 & B4 & B5).
  repeat split; congruence.
Qed.

(** X10. [Finalized] is terminal.  From a finalized campaign past its
    deadline, whatever is sent and however long one waits: the campaign
    stays finalized and inactive, the aggregate, the flags, the records
    and the counter are frozen, so are the goal and the deadline, and
    the token is never called again. *)
Ltac conjs := repeat match goal with |- _ /\ _ => split end.

Theorem finalized_is_terminal l w
    (Hfinal : campaignFinalized (storage w) = true)
    (Hpast : deadline (storage w) <= block_timestamp w) :
  let w' := run env l w in
  campaignFinalized (storage w') = true /\
  isActive w' = Done false w' /\
  same_ledger (storage w) (storage w') /\
  fundingGoal (storage w') = fundingGoal (storage w) /\
  deadline (storage w') = deadline (storage w) /\
  transfers w' = transfers w.
Proof.
  intros w'.
  assert (H : campaignFinalized (storage w') = true /\
              deadline (storage w') <= block_timestamp w' /\
              same_ledger (storage w) (storage w') /\
              fundingGoal (storage w') = fundingGoal (storage w) /\
              deadline (storage w') = deadline (storage w) /\
              transfers w' = transfers w).
  { unfold w'.
    apply (run_invariant
             (fun x => campaignFinalized (storage x) = true /\
                       deadline (storage x) <= block_timestamp x /\
                       same_ledger (storage w) (storage x) /\
                       fundingGoal (storage x) = fundingGoal (storage w) /\
                       deadline (storage x) = deadline (storage w) /\
                       transfers x = transfers w));
      [|conjs; first [assumption | repeat split]].
    clear. intros a x (Hf & Hd & Hl & Hg & Hdl & Ht).
    destruct (act_effect a x)
      as [sender c Hrej|sender a6 h p t' Hadm Htr|sender|sender Hd' Hf'|g Hd' Hf' Hg'
         |d Hf' Hd' Hm Hs|sender|n|t].
    - conjs; assumption.
    - destruct Hadm as (Hnow & _). lia.
    - rewrite recomputed_storage, recomputed_timestamp, recomputed_transfers. simpl.
      conjs; first [assumption | apply Hl].
    - congruence.
    - congruence.
    - congruence.
    - rewrite granted_storage, granted_timestamp, granted_transfers.
      conjs; assumption.
    - simpl. conjs; try assumption. lia.
    - simpl. conjs; assumption. }
  destruct H as (Hf & Hd & Hl & Hg & Hdl & Ht).
  conjs; try assumption.
  rewrite isActive_cases, Hf.
  replace (block_timestamp w' <? deadline (storage w')) with false
    by (symmetry; apply Z.ltb_ge; exact Hd).
  reflexivity.
Qed.

(** ** Calls to the token *)

Lemma transfers_step a w :
  transfers (act env a w) = transfers w ++ payment env a w.
Proof.
  destruct (act_effect a w)
    as [sender c Hrej|sender a6 h p t' Hadm Htr|sender|sender Hd Hf|g Hd Hf Hg
       |d Hf Hd Hm Hs|sender|n|t];
    rewrite ?credited_transfers, ?recomputed_transfers, ?granted_transfers; simpl;
    rewrite ?recomputed_transfers, ?app_nil_r; try reflexivity.
  - destruct c; simpl; rewrite ?app_nil_r; try reflexivity.
    rewrite Hrej, app_nil_r. reflexivity.
  - replace (accepted env sender (call_contributeUSDC a6 h p) w) with true;
      [reflexivity|].
    symmetry. apply accepted_contribution_iff. split; [exact Hadm|eauto].
Qed.

Lemma payment_bounds a w x :
  x ∈ payment env a w ->
  exists sender amount6,
    x = (sender, treasury (storage w), amount6) /\ sent_by sender a /\
    0 < amount6 /\
    minContribution (storage w) <= amount6 <= maxContribution (storage w).
Proof.
  destruct a as [sender [a6 h p| | | | |]|n|t]; simpl;
    try (intros H; apply elem_of_nil in H; contradiction).
  destruct (accepted env sender (call_contributeUSDC a6 h p) w) eqn:Hacc;
    [|intros H; apply elem_of_nil in H; contradiction].
  intros H. apply list_elem_of_singleton in H. subst x.
  apply accepted_contribution_iff in Hacc as [(_ & _ & Ha & Hb & _) _].
  exists sender, a6. repeat split; (assumption || lia).
Qed.

(** X11. The calls the contract makes to the token along a run are
    exactly one [transferFrom] per accepted contribution, in order, from
    the contributor to the treasury and of the stated amount; the amount
    is positive and within the contribution bounds.  No other call, and
    no rejected contribution, moves funds. *)
Theorem transfers_are_the_accepted_contributions l : forall w,
  transfers (run env l w) = transfers w ++ payments env l w /\
  length (payments env l w) = accepted_contributions env l w /\
  (forall x, x ∈ payments env l w ->
     exists sender amount6,
       x = (sender, treasury (storage w), amount6) /\
       0 < amount6 /\
       minContribution (storage w) <= amount6 <= maxContribution (storage w)).
Proof.
  induction l as [|a l IH]; intros w.
  - simpl. rewrite app_nil_r. split; [reflexivity|]. split; [reflexivity|].
    intros x H. apply elem_of_nil in H. contradiction.
  - destruct (IH (act env a w)) as (Ht & Hn & Hb).
    destruct (effect_config _ _ _ (act_effect a w))
      as ((_ & _ & Htr & Hlo & Hhi) & _).
    split; [|split].
    + rewrite run_cons, Ht, transfers_step. simpl. rewrite app_assoc. reflexivity.
    + simpl. rewrite length_app, Hn. f_equal.
      unfold payment.
      destruct a as [sender [a6 h p| | | | |]|n|t]; try reflexivity.
      simpl. destruct (accepted env sender (call_contributeUSDC a6 h p) w); reflexivity.
    + intros x Hx. simpl in Hx. apply elem_of_app in Hx as [Hx|Hx].
      * apply payment_bounds in Hx as (sender & a6 & -> & _ & Hpos & Hin).
        exists sender, a6. repeat split; (assumption || lia).
      * apply Hb in Hx as (sender & a6 & -> & Hpos & Hin).
        rewrite Htr, Hlo, Hhi in *. exists sender, a6.
        repeat split; (assumption || lia).
Qed.

(** ** Permissions *)

Lemma recomputed_acl sender w :
  acl (recomputed env sender w) =
  let c := goal_status (storage w) in
  (hb c, oracleAddress env) :: (hb c, sender) :: (hb c, owner (storage w))
    :: (hb c, self env) :: acl w.
Proof. rewrite recomputed_eq. reflexivity. Qed.

Lemma granted_acl w :
  acl (granted env w) =
  let s := storage w in
  (if totalInitialized s
   then [(h64 (totalRaisedEnc s), oracleAddress env); (h64 (totalRaisedEnc s), owner s);
         (h64 (totalRaisedEnc s), self env)]
   else [])
  ++ (hb (lastGoalReachedCache s), oracleAddress env)
  :: (hb (lastGoalReachedCache s), owner s)
  :: (hb (lastGoalReachedCache s), self env) :: acl w.
Proof. rewrite granted_eq. reflexivity. Qed.

Lemma grown_cons {A} (x : A) (l l0 new : list A) :
  l = new ++ l0 -> x :: l = (x :: new) ++ l0.
Proof. intros ->. reflexivity. Qed.

Lemma grown_nil {A} (l0 : list A) : l0 = [] ++ l0.
Proof. reflexivity. Qed.

Ltac grown := repeat eapply grown_cons; apply grown_nil.

Ltac among :=
  let H := fresh in
  intros ? ? H; simpl in H;
  repeat (apply elem_of_cons in H as [H|H]; [inversion H; subst; simpl; tauto|]);
  apply elem_of_nil in H; contradiction.

(** The grants an action adds go to the contract, the owner, the oracle
    or the sender of the transaction. *)
Lemma effect_acl w a w' :
  Effect env w a w' ->
  exists new,
    acl w' = new ++ acl w /\
    forall h who, (h, who) ∈ new ->
      who = self env \/ who = owner (storage w) \/ who = oracleAddress env \/
      sent_by who a.
Proof.
  intros [sender c Hrej|sender a6 h p t' Hadm Ht|sender|sender Hd Hf|g Hd Hf Hg
         |d Hf Hd Hm Hs|sender|n|t].
  - exists []. split; [reflexivity|among].
  - eexists. split; [rewrite credited_acl; simpl; grown|among].
  - eexists. split; [rewrite recomputed_acl; simpl; grown|among].
  - exists []. split; [reflexivity|among].
  - eexists. split; [simpl; rewrite recomputed_acl; simpl; grown|among].
  - exists []. split; [reflexivity|among].
  - rewrite granted_acl. simpl. destruct (totalInitialized (storage w)); simpl.
    + eexists. split; [grown|among].
    + eexists. split; [grown|among].
  - exists []. split; [reflexivity|among].
  - exists []. split; [reflexivity|among].
Qed.

Lemma isAllowed_app h who new l :
  FHE.isAllowed h who l = true -> FHE.isAllowed h who (new ++ l) = true.
Proof.
  unfold FHE.isAllowed. rewrite !bool_decide_eq_true, elem_of_app. tauto.
Qed.

(** X12. Permissions are never withdrawn: what a principal may decrypt
    it may decrypt after any run.  And a permission is gained only by
    the contract, the owner, the oracle, or the sender of the
    transaction that grants it: nobody else acquires a permission by
    what others send. *)
Theorem permissions_only_grow (h : handle) (who : address) w :
  (forall l,
     FHE.isAllowed h who (acl w) = true ->
     FHE.isAllowed h who (acl (run env l w)) = true) /\
  (forall a,
     FHE.isAllowed h who (acl w) = false ->
     FHE.isAllowed h who (acl (act env a w)) = true ->
     who = self env \/ who = owner (storage w) \/ who = oracleAddress env \/
     sent_by who a).
Proof.
  split.
  - intros l. revert w. induction l as [|a l IH]; intros w H; [exact H|].
    rewrite run_cons. apply IH.
    destruct (effect_acl _ _ _ (act_effect a w)) as (new & -> & _).
    apply isAllowed_app, H.
  - intros a Hno Hyes.
    destruct (effect_acl _ _ _ (act_effect a w)) as (new & Hacl & Hwho).
    rewrite Hacl in Hyes. unfold FHE.isAllowed in *.
    apply bool_decide_eq_true in Hyes. apply bool_decide_eq_false in Hno.
    apply elem_of_app in Hyes as [Hin|Hin]; [|contradiction].
    apply (Hwho h who Hin).
Qed.

(** X13. [grantPublicDecrypt] may be called by anyone at any time and
    does not fail; it changes nothing but the permissions and grants
    only the contract, the owner and the oracle, on the cached goal
    status and, once a contribution has been accepted, on the aggregate.
    Calling it a second time grants nobody anything new. *)
Theorem grantPublicDecrypt_grants w :
  let w' := granted env w in
  grantPublicDecrypt env w = Done tt w' /\
  storage w' = storage w /\ events w' = events w /\ transfers w' = transfers w /\
  (forall who, who = self env \/ who = owner (storage w) \/ who = oracleAddress env ->
     FHE.isAllowed (hb (lastGoalReachedCache (storage w))) who (acl w') = true /\
     (totalInitialized (storage w) = true ->
      FHE.isAllowed (h64 (totalRaisedEnc (storage w))) who (acl w') = true)) /\
  (forall h who,
     FHE.isAllowed h who (acl w') = true ->
     FHE.isAllowed h who (acl w) = true \/
     ((who = self env \/ who = owner (storage w) \/ who = oracleAddress env) /\
      (h = hb (lastGoalReachedCache (storage w)) \/
       (totalInitialized (storage w) = true /\ h = h64 (totalRaisedEnc (storage w)))))) /\
  (forall h who,
     FHE.isAllowed h who (acl (granted env w')) = FHE.isAllowed h who (acl w')).
Proof.
  intros w'. unfold w'.
  split; [apply grantPublicDecrypt_Done|].
  split; [apply granted_storage|].
  split; [rewrite granted_eq; reflexivity|].
  split; [apply granted_transfers|].
  split; [|split].
  - intros who Hwho. rewrite granted_acl. simpl. unfold FHE.isAllowed.
    rewrite !bool_decide_eq_true.
    split.
    + apply elem_of_app. right.
      destruct Hwho as [-> | [-> | ->]]; repeat (first [left; reflexivity|right]); left.
    + intros ->. apply elem_of_app. left.
      destruct Hwho as [-> | [-> | ->]]; repeat (first [left; reflexivity|right]); left.
  - intros h who. rewrite granted_acl. simpl. unfold FHE.isAllowed.
    rewrite !bool_decide_eq_true. intros H.
    apply elem_of_app in H as [H|H].
    + right. destruct (totalInitialized (storage w)); [|apply elem_of_nil in H; contradiction].
      repeat (apply elem_of_cons in H as [H|H]; [inversion H; subst; tauto|]).
      apply elem_of_nil in H. contradiction.
    + repeat (apply elem_of_cons in H as [H|H]; [inversion H; subst; tauto|]).
      left. exact H.
  - intros h who. rewrite (granted_acl (granted env w)), granted_storage.
    rewrite granted_acl. simpl.
    apply bool_decide_ext. rewrite !elem_of_app, !elem_of_cons, !elem_of_app, !elem_of_cons.
    tauto.
Qed.

(** ** Checking the goal on demand *)

(** X14. Anyone may call [checkGoalReached]; it does not fail, returns
    the status it has just cached, which [getLastGoalStatus] then
    returns as well and which the caller may decrypt, and it leaves the
    ledger, the configuration and the event log alone.  The status
    decrypts to [true] exactly when the decrypted aggregate is at least
    the goal, and calling again without anything in between returns a
    status that decrypts to the same. *)
Theorem checkGoalReached_round_trip (pt : Z -> Z) sender w
    (Hgoal : 0 < fundingGoal (storage w) < 2 ^ 64) :
  exists c w1,
    checkGoalReached env sender w = Done c w1 /\
    getLastGoalStatus w1 = Done c w1 /\
    FHE.isAllowed (hb c) sender (acl w1) = true /\
    same_ledger (storage w) (storage w1) /\
    (fundingGoal (storage w1) = fundingGoal (storage w) /\
     deadline (storage w1) = deadline (storage w) /\
     campaignFinalized (storage w1) = campaignFinalized (storage w) /\
     events w1 = events w /\ transfers w1 = transfers w) /\
    FHE.decryptb pt c = (fundingGoal (storage w) <=? raised pt (storage w)) /\
    exists c2 w2,
      checkGoalReached env sender w1 = Done c2 w2 /\
      FHE.decryptb pt c2 = FHE.decryptb pt c /\
      same_ledger (storage w1) (storage w2).
Proof.
  exists (lastGoalReachedCache (storage (recomputed env sender w))),
    (recomputed env sender w).
  split; [apply _updateGoalStatus_Done|].
  split; [reflexivity|].
  split.
  { rewrite recomputed_acl, recomputed_storage. simpl.
    apply isAllowed_tail, isAllowed_head. }
  split; [rewrite recomputed_storage; repeat split|].
  split.
  { rewrite recomputed_storage, recomputed_transfers, recomputed_eq. repeat split. }
  split.
  { rewrite recomputed_storage. simpl. apply decryptb_goal_status, Hgoal. }
  exists (lastGoalReachedCache (storage (recomputed env sender (recomputed env sender w)))),
    (recomputed env sender (recomputed env sender w)).
  split; [apply _updateGoalStatus_Done|].
  split; [|rewrite !recomputed_storage; repeat split].
  rewrite !recomputed_storage. reflexivity.
Qed.

(** ** The event log *)

Lemma recomputed_events sender w : events (recomputed env sender w) = events w.
Proof. rewrite recomputed_eq. reflexivity. Qed.

Lemma granted_events w : events (granted env w) = events w.
Proof. rewrite granted_eq. reflexivity. Qed.

Lemma ended_once_act a w : ended_once w -> ended_once (act env a w).
Proof.
  unfold ended_once. intros Hok.
  destruct (act_effect a w)
    as [sender c Hrej|sender a6 h p t' Hadm Htr|sender|sender Hd Hf|g Hd Hf Hg
       |d Hf Hd Hm Hs|sender|n|t];
    rewrite ?credited_events, ?credited_storage, ?recomputed_events,
      ?recomputed_storage, ?granted_events, ?granted_storage; simpl;
    rewrite ?recomputed_events, ?recomputed_storage; simpl;
    rewrite ?List.filter_app, ?length_app; simpl; rewrite ?Hok, ?Nat.add_0_r;
    try reflexivity.
  rewrite Hf. reflexivity.
Qed.

(** X15. [CampaignEnded] is emitted once: in every run from a campaign
    whose log holds one such event if it is finalized and none otherwise
    (a newly deployed one, with an empty log), the log holds exactly one
    after [finalizeCampaign] has succeeded and none before, whatever
    else is called and however often. *)
Theorem campaign_ends_once l w
    (Hlog : ended_once w) :
  let w' := run env l w in
  length (List.filter is_CampaignEnded (events w')) =
    (if campaignFinalized (storage w') then 1%nat else 0%nat) /\
  (length (List.filter is_CampaignEnded (events w')) <= 1)%nat.
Proof.
  intros w'.
  assert (H : ended_once w').
  { unfold w'. apply (run_invariant ended_once); [apply ended_once_act|exact Hlog]. }
  unfold ended_once in H. split; [exact H|].
  rewrite H. destruct (campaignFinalized (storage w')); lia.
Qed.

(** ** The stated amount and the encrypted amount *)

(** X16. The stated amount only passes the bounds check and drives the
    transfer: two accepted contributions of different stated amounts
    under the same handle leave the same storage and the same
    permissions, and the aggregate grows by what the handle encrypts,
    whatever was stated. *)
Theorem ledger_ignores_stated_amount (pt : Z -> Z) sender amount6 amount6'
    encHandle inputProof w u w1 u' w2
    (Hone : contributeUSDC env sender amount6 encHandle inputProof w = Done u w1)
    (Htwo : contributeUSDC env sender amount6' encHandle inputProof w = Done u' w2) :
  storage w1 = storage w2 /\
  acl w1 = acl w2 /\
  raised pt (storage w1) =
    wrap64 (raised pt (storage w) + FHE.decrypt pt (FHE.ext64 encHandle)).
Proof.
  apply contributeUSDC_Done_inv in Hone as [_ [t1 [_ ->]]].
  apply contributeUSDC_Done_inv in Htwo as [_ [t2 [_ ->]]].
  split; [rewrite !credited_storage, !paid_storage; reflexivity|].
  split; [rewrite !credited_acl, !paid_storage; reflexivity|].
  rewrite raised_credited, paid_storage. reflexivity.
Qed.

End Coverage.

(** * The properties on the two campaigns *)

Module Runs.

Import Scenario.

Lemma constructor_campaign :
  constructor deployer 0 1000000000 30 1000000 100000000 usdc_address treasury_address
  = inr campaign.
Proof. reflexivity. Qed.

Lemma constructor_wide_campaign :
  constructor deployer 0 1000000000 30 1 (2 ^ 64 - 1) usdc_address treasury_address
  = inr wide_campaign.
Proof. reflexivity. Qed.

(** The example of section 8 of the specification, on the campaign with
    wide bounds: with a goal of 1000 USDC, contributions of 400 and 700
    USDC from two contributors leave a counter of 2, an aggregate that
    decrypts to 1100 USDC and a goal status that decrypts to [true]. *)
Example goal_evaluation_example :
  let pt := fun id : Z => if id =? 1 then 400000000 else 700000000 in
  let w := run env [tx alice (call_contributeUSDC 400000000 1 []);
                    tx bob (call_contributeUSDC 700000000 2 [])] wide_genesis in
  contributorCount (storage w) = 2 /\
  FHE.decrypt pt (totalRaisedEnc (storage w)) = 1100000000 /\
  FHE.decryptb pt (lastGoalReachedCache (storage w)) = true.
Proof. repeat split; vm_compute; reflexivity. Qed.

Lemma aggregate_update_witness :
  contributeUSDC env alice 10000000 1 [] genesis = Done tt after_alice /\
  totalRaisedEnc (storage after_alice) = FHE.ext64 1 /\
  totalInitialized (storage after_alice) = true.
Proof.
  assert (H : contributeUSDC env alice 10000000 1 [] genesis = Done tt after_alice)
    by (vm_compute; reflexivity).
  split; [exact H|].
  destruct (aggregate_update env alice 10000000 1 [] genesis tt after_alice H)
    as (H1 & _ & H3 & _).
  split; [apply H1; reflexivity|exact H3].
Defined.

Lemma aggregate_order_independent_witness :
  totalInitialized (storage genesis) = false /\
  [alice_gives; bob_gives] ≡ₚ [bob_gives; alice_gives] /\
  all_accepted env [alice_gives; bob_gives] genesis = true /\
  all_accepted env [bob_gives; alice_gives] genesis = true /\
  raised tens (storage (run env (map contribute [bob_gives; alice_gives]) genesis))
  = 30000000.
Proof.
  assert (H0 : totalInitialized (storage genesis) = false) by reflexivity.
  assert (Hp : [alice_gives; bob_gives] ≡ₚ [bob_gives; alice_gives]) by apply perm_swap.
  assert (H1 : all_accepted env [alice_gives; bob_gives] genesis = true)
    by (vm_compute; reflexivity).
  assert (H2 : all_accepted env [bob_gives; alice_gives] genesis = true)
    by (vm_compute; reflexivity).
  split; [exact H0|]. split; [exact Hp|]. split; [exact H1|]. split; [exact H2|].
  destruct (aggregate_order_independent env tens _ _ genesis H0 Hp H1 H2)
    as (_ & _ & _ & H).
  rewrite H; [reflexivity|vm_compute; reflexivity].
Defined.

(** C2 as stated fails.  With the widest bounds, Alice and Bob each
    give 2^63 micro-USDC, encrypted as such; both contributions are
    accepted, and the aggregate decrypts to 0, not to 2^64. *)
Lemma aggregate_sum_wraps :
  let pt := fun _ : Z => 2 ^ 63 in
  let cs := [mkContribution alice (2 ^ 63) 1 []; mkContribution bob (2 ^ 63) 2 []] in
  let final := storage (run env (map contribute cs) wide_genesis) in
  alice <> bob /\
  all_accepted env cs wide_genesis = true /\
  amounts pt cs = [2 ^ 63; 2 ^ 63] /\
  FHE.decrypt pt (totalRaisedEnc final) = 0 /\
  FHE.decrypt pt (totalRaisedEnc final) <> total (amounts pt cs).
Proof.
  intros pt cs final.
  split; [vm_compute; discriminate|].
  split; [vm_compute; reflexivity|].
  split; [vm_compute; reflexivity|].
  split; [vm_compute; reflexivity|].
  vm_compute. discriminate.
Qed.

Lemma rejected_contribution_witness :
  (exists t', transferFrom (self env) deployer (treasury (storage genesis)) 10000000
                (token genesis) = Some (false, t')) /\
  exists e, exec env deployer (call_contributeUSDC 10000000 1 []) genesis
            = (genesis, Some e).
Proof.
  assert (H : exists t', transferFrom (self env) deployer (treasury (storage genesis))
                           10000000 (token genesis) = Some (false, t'))
    by (eexists; vm_compute; reflexivity).
  split; [exact H|].
  destruct (rejected_contribution_mutates_nothing env deployer 10000000 1 [] genesis
              (or_intror (or_intror (or_introl H))))
    as (e & w_abort & _ & _ & _ & _ & _ & _ & Hexec).
  exists e. exact Hexec.
Defined.

(** The same on a token that reverts, as USDC does: the deployer holds
    no funds, the call to the token reverts, and the contribution
    commits nothing. *)
Example reverting_transfer_rejected :
  transferFrom (self env) deployer (treasury (storage strict_genesis)) 10000000
    (token strict_genesis) = None /\
  exec env deployer (call_contributeUSDC 10000000 1 []) strict_genesis
  = (strict_genesis, Some ExternalFailure).
Proof. split; vm_compute; reflexivity. Qed.

Lemma ended_lifecycle_ok : lifecycle_ok ended.
Proof. intros _. apply Z.leb_le. vm_compute. reflexivity. Defined.

Lemma lifecycle_gating_witness :
  lifecycle_ok ended /\
  contributeUSDC env bob 20000000 2 [] ended = Abort CampaignExpired ended /\
  finalizeCampaign ended = Abort (RequireFailed "Campaign already finalized") ended.
Proof.
  split; [exact ended_lifecycle_ok|].
  destruct (lifecycle_gating env bob 20000000 2 [] 5 ended ended_lifecycle_ok)
    as (_ & H & _).
  destruct (H eq_refl) as (H1 & _ & H3).
  split; [exact H1|exact H3].
Defined.

(** The run behind it: after a contribution the deadline passes and
    Bob finalizes; a further contribution and the owner's goal update
    are turned away with [CampaignExpired], not with
    [CampaignAlreadyFinalized].  And on a campaign merely expired, a
    goal update by someone who is not the owner is turned away with
    [NotOwner]. *)
Lemma finalized_campaign_reports_expired :
  campaignFinalized (storage ended) = true /\
  exec env bob (call_contributeUSDC 20000000 2 []) ended = (ended, Some CampaignExpired) /\
  exec env deployer (call_updateGoal 5) ended = (ended, Some CampaignExpired) /\
  Some CampaignExpired <> Some CampaignAlreadyFinalized /\
  deadline (storage expired) <= block_timestamp expired /\
  exec env bob (call_updateGoal 5) expired = (expired, Some NotOwner) /\
  Some NotOwner <> Some CampaignExpired.
Proof.
  split; [vm_compute; reflexivity|].
  split; [vm_compute; reflexivity|].
  split; [vm_compute; reflexivity|].
  split; [discriminate|].
  split; [vm_compute; discriminate|].
  split; [vm_compute; reflexivity|discriminate].
Qed.

Lemma first_contribution_witness :
  totalInitialized (storage genesis) = false /\
  hasContributed (storage genesis) alice = false /\
  contributeUSDC env alice 10000000 1 [] genesis = Done tt after_alice /\
  contributionOf (storage after_alice) alice = FHE.ext64 1 /\
  FHE.isAllowed (h64 (FHE.ext64 1)) (oracleAddress env) (acl after_alice) = true.
Proof.
  assert (H : contributeUSDC env alice 10000000 1 [] genesis = Done tt after_alice)
    by (vm_compute; reflexivity).
  destruct (first_contribution_is_readable_by_oracle env alice 10000000 1 [] genesis
              tt after_alice eq_refl eq_refl H) as (H1 & _ & H3 & _).
  split; [reflexivity|]. split; [reflexivity|]. split; [exact H|].
  split; [exact H1|]. rewrite <- H1. exact H3.
Defined.

Lemma grants_after_contribution_witness :
  contributeUSDC env bob 20000000 2 [] after_alice = Done tt after_both /\
  FHE.isAllowed (hb (lastGoalReachedCache (storage after_both))) bob (acl after_both)
  = true /\
  FHE.isAllowed (h64 (totalRaisedEnc (storage after_both))) (oracleAddress env)
    (acl after_both) = true.
Proof.
  assert (H : contributeUSDC env bob 20000000 2 [] after_alice = Done tt after_both)
    by (vm_compute; reflexivity).
  split; [exact H|].
  destruct (grants_after_contribution env bob 20000000 2 [] after_alice tt after_both H)
    as ((_ & _ & H1 & _) & (_ & _ & H2)).
  split; [exact H1|exact H2].
Defined.

(** C6 as stated fails.  Bob's contribution, the second of the
    campaign, is accepted, and Bob, who is neither the owner nor the
    oracle nor the contract, holds no permission on the aggregate. *)
Lemma second_contributor_cannot_read_aggregate :
  accepted env bob (call_contributeUSDC 20000000 2 []) after_alice = true /\
  after_both = fst (exec env bob (call_contributeUSDC 20000000 2 []) after_alice) /\
  FHE.isAllowed (h64 (totalRaisedEnc (storage after_both))) bob (acl after_both)
  = false.
Proof. repeat split; vm_compute; reflexivity. Qed.

Lemma contributor_count_witness :
  contributeUSDC env bob 20000000 2 [] after_alice = Done tt after_both /\
  hasContributed (storage after_alice) bob = false /\
  contributorCount (storage after_both) = contributorCount (storage after_alice) + 1.
Proof.
  assert (H : contributeUSDC env bob 20000000 2 [] after_alice = Done tt after_both)
    by (vm_compute; reflexivity).
  assert (Hb : hasContributed (storage after_alice) bob = false)
    by (vm_compute; reflexivity).
  split; [exact H|]. split; [exact Hb|].
  destruct (contributor_count env bob 20000000 2 [] after_alice tt after_both H)
    as (H1 & _).
  destruct (H1 Hb) as (_ & H2 & _).
  apply H2. vm_compute. split; [discriminate|reflexivity].
Defined.

Lemma crowded_S n : crowded (S n) = act env (contribute (member n)) (crowded n).
Proof.
  unfold crowded, crowd, run. rewrite seq_S, !map_app, foldl_app. reflexivity.
Qed.

(** The crowd can be as large as one likes: after its first [n] members
    the counter stands at [n] modulo 2^64, nobody outside the crowd has a
    record, and the campaign is as open as it was. *)
Lemma crowded_spec n :
  contributorCount (storage (crowded n)) = wrap64 (Z.of_nat n) /\
  (forall a, hasContributed (storage (crowded n)) a = true ->
             1000 <= a < 1000 + Z.of_nat n) /\
  block_timestamp (crowded n) = 0 /\
  deadline (storage (crowded n)) = 30 * one_day /\
  campaignFinalized (storage (crowded n)) = false /\
  minContribution (storage (crowded n)) = 1000000 /\
  maxContribution (storage (crowded n)) = 100000000.
Proof.
  induction n as [|n (Hc & Hm & Ht & Hd & Hf & Hlo & Hhi)].
  - repeat split; try reflexivity; unfold hasContributed in H;
      change (hasContributedMap (storage (crowded 0))) with (∅ : gmap Z bool) in H;
      rewrite lookup_empty in H; discriminate.
  - rewrite crowded_S.
    assert (Hacc : is_accepted_contribution env (contribute (member n)) (crowded n) = true).
    { apply accepted_contribution_iff. split; [|eexists; reflexivity].
      unfold admissible. rewrite Ht, Hd, Hf, Hlo, Hhi.
      repeat split; try reflexivity; unfold member, one_day; simpl; lia. }
    destruct (act_accepted_contribution env _ _ Hacc) as [t' ->].
    assert (Hnew : hasContributed (storage (crowded n)) (1000 + Z.of_nat n) = false).
    { destruct (hasContributed (storage (crowded n)) (1000 + Z.of_nat n)) eqn:Hh;
        [apply Hm in Hh; lia|reflexivity]. }
    rewrite credited_storage, credited_timestamp. simpl.
    unfold count_after. simpl. rewrite Hnew.
    split; [|split; [|repeat split; assumption]].
    + rewrite Hc, wrap64_add_l. f_equal. lia.
    + intros a. unfold hasContributed at 1. simpl.
      destruct (decide (a = 1000 + Z.of_nat n)) as [->|Hne]; [lia|].
      rewrite lookup_insert_ne by congruence.
      intros Ha. apply Hm in Ha. lia.
Qed.

(** What Alice's first contribution does to the counter once the crowd
    has filled it. *)
Lemma crowd_fills_counter n :
  Z.of_nat n = 2 ^ 64 - 1 ->
  hasContributed (storage (crowded n)) alice = false /\
  is_accepted_contribution env (contribute alice_gives) (crowded n) = true /\
  contributorCount (storage (crowded n)) = 2 ^ 64 - 1 /\
  contributorCount (storage (act env (contribute alice_gives) (crowded n))) = 0 /\
  contributorCount (storage (act env (contribute alice_gives) (crowded n))) <>
    contributorCount (storage (crowded n)) + 1.
Proof.
  intros Hn.
  destruct (crowded_spec n) as (Hc & Hm & Ht & Hd & Hf & Hlo & Hhi).
  rewrite Hn in Hc.
  assert (Hc' : contributorCount (storage (crowded n)) = 2 ^ 64 - 1).
  { rewrite Hc. apply wrap64_small. lia. }
  assert (Hnew : hasContributed (storage (crowded n)) alice = false).
  { destruct (hasContributed (storage (crowded n)) alice) eqn:Hh; [|reflexivity].
    apply Hm in Hh. unfold alice in Hh. lia. }
  assert (Hacc : is_accepted_contribution env (contribute alice_gives) (crowded n) = true).
  { apply accepted_contribution_iff. split; [|eexists; reflexivity].
    unfold admissible. rewrite Ht, Hd, Hf, Hlo, Hhi.
    repeat split; try reflexivity; unfold one_day; simpl; lia. }
  assert (Hzero : contributorCount
                    (storage (act env (contribute alice_gives) (crowded n))) = 0).
  { destruct (act_accepted_contribution env _ _ Hacc) as [t' ->].
    rewrite credited_storage. simpl. unfold count_after. simpl.
    change (c_sender alice_gives) with alice. rewrite Hnew, Hc'. reflexivity. }
  split; [exact Hnew|]. split; [exact Hacc|]. split; [exact Hc'|].
  split; [exact Hzero|]. rewrite Hzero, Hc'. discriminate.
Qed.

(** C7 as stated fails.  Once 2^64 - 1 members of the crowd have
    contributed, the counter stands at 2^64 - 1; Alice has no record, her
    first contribution is accepted, and the counter goes to 0 instead of
    up by 1. *)
Lemma contributor_count_wraps :
  hasContributed (storage full_crowd) alice = false /\
  is_accepted_contribution env (contribute alice_gives) full_crowd = true /\
  contributorCount (storage full_crowd) = 2 ^ 64 - 1 /\
  contributorCount (storage (act env (contribute alice_gives) full_crowd)) = 0 /\
  contributorCount (storage (act env (contribute alice_gives) full_crowd)) <>
    contributorCount (storage full_crowd) + 1.
Proof.
  unfold full_crowd. apply crowd_fills_counter. apply Z2Nat.id. lia.
Qed.




(** C9, where the code departs from it.  Alice's 10 USDC are all the
    campaign with a goal of 1000 USDC has raised when it is finalized;
    the event says the goal was met, and it was not. *)
Theorem campaign_ended_flag_ignores_goal :
  events ended = [Contributed alice true 0; CampaignEnded true (30 * one_day)] /\
  raised tens (storage ended) = 10000000 /\
  fundingGoal (storage ended) = 1000000000 /\
  (fundingGoal (storage ended) <=? raised tens (storage ended)) = false /\
  FHE.decryptb tens (lastGoalReachedCache (storage ended)) = false.
Proof. repeat split; vm_compute; reflexivity. Qed.

Lemma deadline_extension_witness :
  campaignFinalized (storage expired) = false /\
  deadline (storage expired) <= block_timestamp expired /\
  exists w',
    exec env deployer (call_extendDeadline 10) expired = (w', None) /\
    isActive w' = Done true w'.
Proof.
  assert (H1 : campaignFinalized (storage expired) = false) by reflexivity.
  assert (H2 : deadline (storage expired) <= block_timestamp expired)
    by (vm_compute; discriminate).
  split; [exact H1|]. split; [exact H2|].
  assert (Hd : 0 <= deadline (storage expired)) by (vm_compute; discriminate).
  assert (Hf : deadline (storage expired) + 10 * one_day < 2 ^ 64)
    by (vm_compute; reflexivity).
  destruct (deadline_extension_revives env 10 expired H1 ltac:(lia) Hd Hf)
    as (_ & Hexec & _ & _ & Hact).
  eexists. split; [exact Hexec|].
  apply Hact. vm_compute. reflexivity.
Defined.

(** C10 as stated fails.  The campaign is not finalized and the owner
    asks for 2^64 - 1 more days, a positive 64-bit number: the checked
    multiplication by the length of a day overflows and the call aborts. *)
Lemma extension_overflows :
  campaignFinalized (storage genesis) = false /\
  deployer = owner (storage genesis) /\
  is_uint64 (2 ^ 64 - 1) /\
  0 < 2 ^ 64 - 1 /\
  exec env deployer (call_extendDeadline (2 ^ 64 - 1)) genesis = (genesis, Some Panic).
Proof.
  split; [reflexivity|].
  split; [reflexivity|].
  split; [unfold is_uint64; lia|].
  split; [lia|].
  vm_compute. reflexivity.
Qed.

End Runs.

(** * The properties of the remaining functions on the two campaigns *)

Module MoreRuns.

Import Scenario.

Lemma constructor_validates_witness :
  is_uint64 1000000000 /\ is_uint64 30 /\ is_uint64 1000000 /\ is_uint64 100000000 /\
  0 <= 0 /\
  deadline campaign = wrap64 (0 + 30 * one_day) /\
  0 < deadline campaign /\
  well_formed campaign.
Proof.
  assert (H1 : is_uint64 1000000000) by (unfold is_uint64; lia).
  assert (H2 : is_uint64 30) by (unfold is_uint64; lia).
  assert (H3 : is_uint64 1000000) by (unfold is_uint64; lia).
  assert (H4 : is_uint64 100000000) by (unfold is_uint64; lia).
  assert (H5 : 0 <= 0) by lia.
  split; [exact H1|]. split; [exact H2|]. split; [exact H3|]. split; [exact H4|].
  split; [exact H5|].
  destruct (constructor_validates deployer 0 1000000000 30 1000000 100000000
              usdc_address treasury_address H1 H2 H3 H4 H5)
    as (_ & _ & _ & _ & H).
  destruct (H campaign eq_refl) as (_ & _ & _ & Hd & Hlater & Hwf).
  split; [exact Hd|]. split; [apply Hlater; vm_compute; reflexivity|exact Hwf].
Defined.

Lemma time_remaining_witness :
  0 <= block_timestamp genesis /\
  is_uint64 (deadline (storage genesis)) /\
  getTimeRemaining genesis =
    Done (Z.max 0 (deadline (storage genesis) - block_timestamp genesis)) genesis.
Proof.
  assert (H1 : 0 <= block_timestamp genesis) by (vm_compute; discriminate).
  assert (H2 : is_uint64 (deadline (storage genesis)))
    by (vm_compute; split; [discriminate|reflexivity]).
  split; [exact H1|]. split; [exact H2|].
  exact (proj1 (time_remaining_and_activity env genesis H1 H2)).
Defined.

Lemma total_readable_witness :
  totalInitialized (storage genesis) = false /\
  accepted_contributions env [contribute alice_gives] genesis <> 0%nat /\
  getTotalRaised after_alice = Done (totalRaisedEnc (storage after_alice)) after_alice.
Proof.
  assert (H1 : totalInitialized (storage genesis) = false) by reflexivity.
  assert (H2 : accepted_contributions env [contribute alice_gives] genesis <> 0%nat)
    by (vm_compute; discriminate).
  split; [exact H1|]. split; [exact H2|].
  destruct (total_readable_after_first_contribution env [contribute alice_gives]
              genesis H1) as (_ & H).
  exact (proj1 (H H2)).
Defined.

Lemma genesis_consistent : ledger_consistent (storage genesis).
Proof.
  split; [intros a _; apply lookup_empty|].
  split; [|reflexivity].
  intros a b H.
  change (hasContributedMap (storage genesis)) with (∅ : gmap Z bool) in H.
  rewrite lookup_empty in H. discriminate.
Defined.

Lemma counter_counts_witness :
  ledger_consistent (storage genesis) /\
  contributorCount (storage (run env [contribute alice_gives; contribute bob_gives] genesis)) =
  wrap64 (Z.of_nat (size (dom (hasContributedMap
    (storage (run env [contribute alice_gives; contribute bob_gives] genesis)))))).
Proof.
  split; [exact genesis_consistent|].
  exact (proj1 (counter_counts_contributors env
                  [contribute alice_gives; contribute bob_gives] genesis
                  genesis_consistent)).
Defined.

Lemma aggregate_is_sum_witness :
  ledger_consistent (storage genesis) /\
  raised tens (storage genesis) = wrap64 (records_sum tens (storage genesis)) /\
  raised tens (storage (run env [contribute alice_gives; contribute bob_gives] genesis)) =
  wrap64 (records_sum tens
            (storage (run env [contribute alice_gives; contribute bob_gives] genesis))).
Proof.
  assert (H : raised tens (storage genesis) = wrap64 (records_sum tens (storage genesis)))
    by reflexivity.
  split; [exact genesis_consistent|]. split; [exact H|].
  exact (aggregate_is_sum_of_records env tens
           [contribute alice_gives; contribute bob_gives] genesis genesis_consistent H).
Defined.

Lemma deadline_never_decreases_witness :
  Forall (well_typed (T:=SimpleToken.Ledger)) [tx deployer (call_extendDeadline 10)] /\
  deadline (storage genesis) <=
  deadline (storage (run env [tx deployer (call_extendDeadline 10)] genesis)).
Proof.
  assert (H : Forall (well_typed (T:=SimpleToken.Ledger))
                [tx deployer (call_extendDeadline 10)]).
  { constructor; [simpl; unfold is_uint64; lia|constructor]. }
  split; [exact H|].
  exact (deadline_never_decreases env _ genesis H).
Defined.

Lemma finalized_is_terminal_witness :
  campaignFinalized (storage ended) = true /\
  deadline (storage ended) <= block_timestamp ended /\
  same_ledger (storage ended)
    (storage (run env [contribute bob_gives; tx deployer (call_extendDeadline 10)] ended)).
Proof.
  assert (H1 : campaignFinalized (storage ended) = true) by (vm_compute; reflexivity).
  assert (H2 : deadline (storage ended) <= block_timestamp ended)
    by (vm_compute; discriminate).
  split; [exact H1|]. split; [exact H2|].
  destruct (finalized_is_terminal env
              [contribute bob_gives; tx deployer (call_extendDeadline 10)] ended H1 H2)
    as (_ & _ & H & _).
  exact H.
Defined.

Lemma checkGoalReached_witness :
  0 < fundingGoal (storage after_both) < 2 ^ 64 /\
  exists c w1,
    checkGoalReached env alice after_both = Done c w1 /\
    getLastGoalStatus w1 = Done c w1.
Proof.
  assert (H : 0 < fundingGoal (storage after_both) < 2 ^ 64)
    by (vm_compute; split; reflexivity).
  split; [exact H|].
  destruct (checkGoalReached_round_trip env tens alice after_both H)
    as (c & w1 & H1 & H2 & _).
  exists c, w1. split; [exact H1|exact H2].
Defined.

Lemma campaign_ends_once_witness :
  ended_once genesis /\
  length (List.filter is_CampaignEnded (events ended)) = 1%nat.
Proof.
  assert (H : ended_once genesis) by reflexivity.
  split; [exact H|].
  destruct (campaign_ends_once env
              [contribute alice_gives; tick (30 * one_day); tx bob call_finalizeCampaign]
              genesis H) as (H1 & _).
  unfold ended. rewrite H1. vm_compute. reflexivity.
Defined.

Lemma ledger_ignores_stated_amount_witness :
  contributeUSDC env alice 10000000 1 [] genesis = Done tt after_alice /\
  (exists w2, contributeUSDC env alice 20000000 1 [] genesis = Done tt w2 /\
              storage after_alice = storage w2).
Proof.
  assert (H1 : contributeUSDC env alice 10000000 1 [] genesis = Done tt after_alice)
    by (vm_compute; reflexivity).
  split; [exact H1|].
  eexists. split; [vm_compute; reflexivity|].
  refine (proj1 (ledger_ignores_stated_amount env tens alice 10000000 20000000 1 []
                   genesis tt after_alice tt _ H1 _)).
  vm_compute. reflexivity.
Defined.

End MoreRuns.
